(** * KubeRay operator utilities: a shallow embedding

    This development embeds the helper functions of
    [ray-operator/controllers/ray/utils/util.go] and
    [ray-operator/controllers/ray/utils/serve_httpclient.go] and states
    the properties of the name sanitizer, the replica aggregators, the
    pod/template comparator, the JSON comparator, the serve-config
    translator and the dashboard client.

    Conventions.
    - A Go [string] is a sequence of bytes: [String.string] over [ascii].
    - Go's [int] and [int32] are [Z]; [int32] arithmetic wraps
      ([wrap_int32]).
    - A pointer used as an optional value ([*int32], [*float64],
      [*metav1.Time]) is an [option]; dereferencing [nil] panics.
    - A run-time panic is an explicit outcome ([Panic]) of the [exec]
      monad, so that "the call fails" is a statement about a value.
    - Go maps are stdpp [gmap]s. *)

From Stdlib Require Import ZArith QArith Ascii String.
From stdpp Require Import base option list gmap strings fin_maps.

Local Open Scope string_scope.
Local Open Scope Z_scope.

(** ** Run-time panics *)

Inductive panic : Set :=
| IndexOutOfRange          (* s[i] with i outside [0, len(s)) *)
| SliceBoundsOutOfRange    (* s[a:] with a outside [0, len(s)] *)
| NilDereference.          (* *p with p == nil *)

Inductive exec (A : Type) : Type :=
| Ret (a : A)
| Panic (p : panic).
Arguments Ret {A} a.
Arguments Panic {A} p.

Definition exec_bind {A B : Type} (m : exec A) (k : A -> exec B) : exec B :=
  match m with
  | Ret a => k a
  | Panic p => Panic p
  end.

Declare Scope exec_scope.
Delimit Scope exec_scope with exec.
Notation "'let*' x ':=' m 'in' k" := (exec_bind m (fun x => k))
  (at level 10, x name, m at level 100, k at level 200) : exec_scope.
Local Open Scope exec_scope.

Definition returns {A : Type} (m : exec A) : Prop := exists a, m = Ret a.

(** ** Machine integers *)

Definition int32_modulus : Z := 2 ^ 32.
Definition int32_min : Z := - 2 ^ 31.
Definition int32_max : Z := 2 ^ 31 - 1.

(** Two's-complement reduction of a mathematical integer to [int32]. *)
Definition wrap_int32 (z : Z) : Z :=
  (z + 2 ^ 31) mod int32_modulus - 2 ^ 31.

Definition int32_add (a b : Z) : Z := wrap_int32 (a + b).

Definition in_int32 (z : Z) : Prop := int32_min <= z <= int32_max.

(** ** float64 on integral values

    [CheckName] and [CheckLabel] route an integer subtraction through
    [float64].  Every value involved is integral, so a [float64] is
    represented by the integer it denotes and each operation rounds its
    exact result to the nearest value with a 53-bit significand, ties to
    even.  (The exponent range is never exceeded by a difference of two
    [int]s.) *)

Definition round53 (z : Z) : Z :=
  let a := Z.abs z in
  if a <? 2 ^ 53 then z
  else
    let e := Z.log2 a - 52 in
    let q := a / 2 ^ e in
    let r := a mod 2 ^ e in
    let half := 2 ^ (e - 1) in
    let q' := if r <? half then q
              else if half <? r then q + 1
              else if Z.even q then q else q + 1 in
    Z.sgn z * (q' * 2 ^ e).

Definition float64_of_int (n : Z) : Z := round53 n.
Definition float64_sub (x y : Z) : Z := round53 (x - y).
Definition math_Abs (x : Z) : Z := Z.abs x.
(** [int(f)] truncates towards zero; on an integral [f] it is [f]. *)
Definition int_of_float64 (f : Z) : Z := f.

(** ** Strings as byte sequences *)

Definition len (s : string) : Z := Z.of_nat (String.length s).

Fixpoint drop_bytes (n : nat) (s : string) : string :=
  match n, s with
  | O, _ => s
  | S n', String _ s' => drop_bytes n' s'
  | S _, EmptyString => EmptyString
  end.

Fixpoint take_bytes (n : nat) (s : string) : string :=
  match n, s with
  | O, _ => EmptyString
  | S n', String c s' => String c (take_bytes n' s')
  | S _, EmptyString => EmptyString
  end.

(** [s[off:]] *)
Definition slice_from (s : string) (off : Z) : exec string :=
  if (0 <=? off) && (off <=? len s)
  then Ret (drop_bytes (Z.to_nat off) s)
  else Panic SliceBoundsOutOfRange.

(** [s[i]] *)
Definition byte_at (s : string) (i : Z) : exec ascii :=
  if (0 <=? i) && (i <? len s)
  then match String.get (Z.to_nat i) s with
       | Some c => Ret c
       | None => Panic IndexOutOfRange
       end
  else Panic IndexOutOfRange.

(** [rune(b)] for a byte [b]: the code point U+0000..U+00FF. *)
Definition rune (b : ascii) : Z := Z.of_N (N_of_ascii b).

(** ** Package unicode, restricted to Latin-1

    [rune(s[0])] never exceeds [MaxLatin1], so only the Latin-1 fast path
    of [unicode.IsDigit] and [unicode.IsPunct] is reachable from this
    code: [IsDigit] is the range test '0'..'9', [IsPunct] reads the
    [pP] bit of the package's Latin-1 property table. *)

Definition MaxLatin1 : Z := 255.

Definition unicode_IsDigit (r : Z) : bool :=
  (48 <=? r) && (r <=? 57).

Definition latin1_punct : list Z :=
  [ 33; 34; 35; 37; 38; 39; 40; 41; 42; 44; 45; 46; 47;
    (* 0x21-0x2F without the dollar and plus signs *)
    58; 59; 63; 64;         (* colon, semicolon, question mark, at sign *)
    91; 92; 93; 95;         (* brackets, backslash, underscore *)
    123; 125;               (* braces *)
    161; 167; 171; 182; 183; 187; 191 ].
    (* Latin-1 supplement: inverted marks, section and pilcrow signs,
       middle dot, guillemets *)

Definition unicode_IsPunct (r : Z) : bool :=
  existsb (Z.eqb r) latin1_punct.

(** ** NameSanitizer: [CheckName] and [CheckLabel] *)

(** The shortening step shared by both functions:
    [if len(s) > maxLenght { offset := int(math.Abs(float64(maxLenght) - float64(len(s)))); s = s[offset:] }].
    The [fmt.Printf] diagnostics write to standard output only and are
    left out. *)
Definition shorten (maxLenght : Z) (s : string) : exec string :=
  if maxLenght <? len s then
    let offset :=
      int_of_float64
        (math_Abs (float64_sub (float64_of_int maxLenght)
                               (float64_of_int (len s)))) in
    slice_from s offset
  else Ret s.

(** The assignment that puts the letter r in front of [s[1:]]. *)
Definition replace_first (s : string) : exec string :=
  let* tl := slice_from s 1 in
  Ret ("r" +:+ tl).

Definition CheckName (s : string) : exec string :=
  let maxLenght := 50 in
  let* s := shorten maxLenght s in
  (* cannot start with a numeric value *)
  let* c := byte_at s 0 in
  let* s := (if unicode_IsDigit (rune c) then replace_first s else Ret s) in
  (* cannot start with a punctuation *)
  let* c := byte_at s 0 in
  let* s := (if unicode_IsPunct (rune c) then replace_first s else Ret s) in
  Ret s.

Definition CheckLabel (s : string) : exec string :=
  let maxLenght := 63 in
  let* s := shorten maxLenght s in
  (* cannot start with a punctuation *)
  let* c := byte_at s 0 in
  let* s := (if unicode_IsPunct (rune c) then replace_first s else Ret s) in
  Ret s.

(** The result of the leading-character fix-ups on a string with first
    byte [c] and remainder [t], as a closed form used in the statements
    below. *)
Definition fix_name (c : ascii) (t : string) : string :=
  if unicode_IsDigit (rune c) || unicode_IsPunct (rune c)
  then String "r" t else String c t.

Definition fix_label (c : ascii) (t : string) : string :=
  if unicode_IsPunct (rune c) then String "r" t else String c t.


(** ** API types

    The declarations of [corev1], [metav1] and [rayv1alpha1] live outside
    this package; the records below carry the fields this package reads,
    with the types at which it uses them. *)

(** [resource.Quantity]: an exact decimal amount.  Two quantities are the
    same amount when [Cmp] is 0, whatever their spelling ([1000m] and
    [1]), hence a rational and its comparison. *)
Abbreviation Quantity := Q.

Definition Quantity_Cmp (x y : Quantity) : Z :=
  match Qcompare x y with
  | Lt => -1
  | Eq => 0
  | Gt => 1
  end.

Module metav1.
Record ObjectMeta : Type := {
  Name : string;
  Namespace : string;
  DeletionTimestamp : option Z        (* *metav1.Time *)
}.
End metav1.

Module corev1.
Definition PodPhase : Type := string.
Definition PodPending : PodPhase := "Pending".
Definition PodRunning : PodPhase := "Running".
Definition PodSucceeded : PodPhase := "Succeeded".
Definition PodFailed : PodPhase := "Failed".
Definition PodUnknown : PodPhase := "Unknown".

(** [map[ResourceName]Quantity] *)
Abbreviation ResourceList := (gmap string Quantity).

Record ResourceRequirements : Type := {
  Limits : ResourceList;
  Requests : ResourceList
}.

Record Container : Type := {
  Name : string;
  Image : string;
  Resources : ResourceRequirements
}.

Record PodSpec : Type := {
  Containers : list Container;
  ServiceAccountName : string
}.

Record PodStatus : Type := { Phase : PodPhase }.

Record Pod : Type := {
  ObjectMeta : metav1.ObjectMeta;
  Spec : PodSpec;
  Status : PodStatus
}.

Record PodList : Type := { Items : list Pod }.

(** [PodTemplateSpec] has fields [ObjectMeta] and [Spec] like [Pod]. *)
Record PodTemplateSpec : Type := {
  TemplateObjectMeta : metav1.ObjectMeta;
  TemplateSpec : PodSpec
}.

(** The zero value of [Container]. *)
Definition zero_Container : Container :=
  {| Name := ""; Image := "";
     Resources := {| Limits := ∅; Requests := ∅ |} |}.
End corev1.

(** A [float64] that is only stored and copied: its 64 bits. *)
Abbreviation float64 := Z.

(** Modelled from the spec: package [rayv1alpha1]
    ([ray-operator/apis/ray/v1alpha1]) declares the API types; its
    source is not part of this development.  [WorkerGroupSpec] declares
    [replicas], [minReplicas] and [maxReplicas], each an optional integer
    (the code dereferences them as [*int32]); a [ServeConfigSpec] has a
    name, replica count, route prefix, concurrency limit, the two
    configuration blobs, the graceful-shutdown and health-check timings
    and the nested actor options, under the field names the client reads
    and, for the health-check timeout, the name of its wire field. *)
Module rayv1alpha1.
Record WorkerGroupSpec : Type := {
  Replicas : option Z;        (* *int32 *)
  MinReplicas : option Z;     (* *int32 *)
  MaxReplicas : option Z      (* *int32 *)
}.

Record RayClusterSpec : Type := {
  WorkerGroupSpecs : list WorkerGroupSpec
}.

Record RayCluster : Type := {
  ObjectMeta : metav1.ObjectMeta;
  Spec : RayClusterSpec
}.

(** The serve types of the API.  The configuration blobs ([UserConfig],
    [AutoscalingConfig], [RuntimeEnv], [Resources]) are YAML text: the
    client converts each with [[]byte(...)] before decoding it. *)
Module RayActorOptionSpec.
Record t : Type := {
  RuntimeEnv : string;
  NumCpus : option float64;          (* *float64 *)
  NumGpus : option float64;          (* *float64 *)
  Memory : option Z;                 (* *int32 *)
  ObjectStoreMemory : option Z;      (* *int32 *)
  Resources : string;
  AcceleratorType : string
}.
End RayActorOptionSpec.

Module ServeConfigSpec.
Record t : Type := {
  Name : string;
  NumReplicas : option Z;
  RoutePrefix : string;
  MaxConcurrentQueries : option Z;
  UserConfig : string;
  AutoscalingConfig : string;
  GracefulShutdownWaitLoopS : option Z;
  GracefulShutdownTimeoutS : option Z;
  HealthCheckPeriodS : option Z;
  HealthCheckTimeoutS : option Z;
  RayActorOptions : RayActorOptionSpec.t
}.
End ServeConfigSpec.

Module ServeDeploymentGraphSpec.
Record t : Type := {
  ImportPath : string;
  RuntimeEnv : string;
  ServeConfigSpecs : list ServeConfigSpec.t
}.
End ServeDeploymentGraphSpec.
End rayv1alpha1.

(** ** ReplicaAggregator *)

(** [*p] *)
Definition deref {A : Type} (p : option A) : exec A :=
  match p with
  | Some a => Ret a
  | None => Panic NilDereference
  end.

(** [for _, nodeGroup := range groups { count += *nodeGroup.field }],
    started from [count]. *)
Fixpoint sum_groups (field : rayv1alpha1.WorkerGroupSpec -> option Z)
    (count : Z) (groups : list rayv1alpha1.WorkerGroupSpec) : exec Z :=
  match groups with
  | [] => Ret count
  | nodeGroup :: rest =>
      let* v := deref (field nodeGroup) in
      sum_groups field (int32_add count v) rest
  end.

Definition CalculateDesiredReplicas (cluster : rayv1alpha1.RayCluster) : exec Z :=
  sum_groups rayv1alpha1.Replicas 0
    (rayv1alpha1.WorkerGroupSpecs (rayv1alpha1.Spec cluster)).

Definition CalculateMinReplicas (cluster : rayv1alpha1.RayCluster) : exec Z :=
  sum_groups rayv1alpha1.MinReplicas 0
    (rayv1alpha1.WorkerGroupSpecs (rayv1alpha1.Spec cluster)).

Definition CalculateMaxReplicas (cluster : rayv1alpha1.RayCluster) : exec Z :=
  sum_groups rayv1alpha1.MaxReplicas 0
    (rayv1alpha1.WorkerGroupSpecs (rayv1alpha1.Spec cluster)).

(** [pod.Status.Phase == corev1.PodPending || pod.Status.Phase == corev1.PodRunning] *)
Definition pending_or_running (pod : corev1.Pod) : bool :=
  String.eqb (corev1.Phase (corev1.Status pod)) corev1.PodPending
  || String.eqb (corev1.Phase (corev1.Status pod)) corev1.PodRunning.

Fixpoint count_available (count : Z) (pods : list corev1.Pod) : Z :=
  match pods with
  | [] => count
  | pod :: rest =>
      count_available
        (if pending_or_running pod then int32_add count 1 else count) rest
  end.

Definition CalculateAvailableReplicas (pods : corev1.PodList) : Z :=
  count_available 0 (corev1.Items pods).

(** The sum of a field over all groups, an unset field counting as zero. *)
Definition field_total (field : rayv1alpha1.WorkerGroupSpec -> option Z)
    (groups : list rayv1alpha1.WorkerGroupSpec) : Z :=
  foldr (fun g acc => default 0 (field g) + acc) 0 groups.

(** The pods of a list that are pending or running. *)
Definition viable_pods (pods : list corev1.Pod) : list corev1.Pod :=
  List.filter pending_or_running pods.

(** *** Sample clusters and pod lists *)

Definition group (r mi ma : option Z) : rayv1alpha1.WorkerGroupSpec :=
  {| rayv1alpha1.Replicas := r;
     rayv1alpha1.MinReplicas := mi;
     rayv1alpha1.MaxReplicas := ma |}.

Definition sample_meta : metav1.ObjectMeta :=
  {| metav1.Name := "raycluster-sample"; metav1.Namespace := "default";
     metav1.DeletionTimestamp := None |}.

Definition cluster_all_set : rayv1alpha1.RayCluster :=
  {| rayv1alpha1.ObjectMeta := sample_meta;
     rayv1alpha1.Spec := {| rayv1alpha1.WorkerGroupSpecs :=
       [ group (Some 2) (Some 1) (Some 4); group (Some 3) (Some 0) (Some 10) ] |} |}.

Definition cluster_some_unset : rayv1alpha1.RayCluster :=
  {| rayv1alpha1.ObjectMeta := sample_meta;
     rayv1alpha1.Spec := {| rayv1alpha1.WorkerGroupSpecs :=
       [ group None (Some 1) (Some 4);
         group (Some 3) None (Some 5);
         group (Some 2) (Some 1) None ] |} |}.

Definition pod_in_phase (phase : corev1.PodPhase) : corev1.Pod :=
  {| corev1.ObjectMeta :=
       {| metav1.Name := "pod"; metav1.Namespace := "default";
          metav1.DeletionTimestamp := None |};
     corev1.Spec := {| corev1.Containers := []; corev1.ServiceAccountName := "" |};
     corev1.Status := {| corev1.Phase := phase |} |}.

Definition pods_3_running_1_failed_1_pending : corev1.PodList :=
  {| corev1.Items :=
       [ pod_in_phase corev1.PodRunning; pod_in_phase corev1.PodFailed;
         pod_in_phase corev1.PodRunning; pod_in_phase corev1.PodPending;
         pod_in_phase corev1.PodRunning ] |}.

(** ** PodSpecComparator: [PodNotMatchingTemplate]

    The function builds [cmap := map[string]*corev1.Container{}] with
    [cmap[container.Name] = &container], where [container] is the
    variable of the [range] loop.  What the stored pointers refer to
    depends on the scope of that variable, so the variable's storage is
    modelled: a heap of [Container] cells addressed by [nat], and a
    [cmap] from names to addresses. *)

(** The two scoping rules of a [for ... := range] variable: one variable
    for the whole loop (the Go language before version 1.22, under which
    this package, an importer of [io/ioutil] written against the
    [v1alpha1] API, is built), or a fresh variable at each iteration
    (Go 1.22 and later). *)
Inductive loopvar_scope : Set := PerLoop | PerIteration.

Record cmap_state : Type := {
  heap : gmap nat corev1.Container;
  cmap : gmap string nat
}.

Definition empty_cmap_state : cmap_state := {| heap := ∅; cmap := ∅ |}.

(** [for _, container := range containers { cmap[container.Name] = &container }];
    [i] is the index of the next iteration. *)
Fixpoint build_cmap (scope : loopvar_scope) (i : nat)
    (containers : list corev1.Container) (st : cmap_state) : cmap_state :=
  match containers with
  | [] => st
  | container :: rest =>
      let addr := match scope with PerLoop => O | PerIteration => i end in
      build_cmap scope (S i) rest
        {| heap := <[addr := container]> (heap st);
           cmap := <[corev1.Name container := addr]> (cmap st) |}
  end.

(** [*p] for a pointer to a loop-variable cell. *)
Definition load (h : gmap nat corev1.Container) (addr : nat) : corev1.Container :=
  default corev1.zero_Container (h !! addr).

(** The inner loop over one [ResourceList]: some entry of [r1] is missing
    from [r2] or differs from it in amount.  Go ranges over a map in an
    unspecified order; the loop only ever returns [true] at a mismatch,
    so the order does not show in the result. *)
Definition resource_list_differs (r1 r2 : gmap string Quantity) : bool :=
  existsb
    (fun entry : string * Quantity =>
       match r2 !! entry.1 with
       | Some quantity2 => negb (Quantity_Cmp entry.2 quantity2 =? 0)
       | None => true
       end)
    (map_to_list r1).

(** The body of the template loop for a matched pair: [true] when the
    function returns [true] there. *)
Definition containers_differ (container1 container2 : corev1.Container) : bool :=
  if negb (String.eqb (corev1.Image container1) (corev1.Image container2))
  then true   (* image name do not match *)
  else if negb (size (corev1.Requests (corev1.Resources container1))
                =? size (corev1.Requests (corev1.Resources container2)))%nat
          || negb (size (corev1.Limits (corev1.Resources container1))
                   =? size (corev1.Limits (corev1.Resources container2)))%nat
  then true   (* resource entries do not match *)
  else
    let resources1 := [ corev1.Requests (corev1.Resources container1);
                        corev1.Limits (corev1.Resources container1) ] in
    let resources2 := [ corev1.Requests (corev1.Resources container2);
                        corev1.Limits (corev1.Resources container2) ] in
    existsb (fun rr : gmap string Quantity * gmap string Quantity =>
               resource_list_differs rr.1 rr.2)
            (zip resources1 resources2).

(** [for _, container1 := range template.Spec.Containers { ... }] followed
    by [if len(cmap) != 0 { return true }] and the final [return false]. *)
Fixpoint match_template (h : gmap nat corev1.Container) (cm : gmap string nat)
    (containers : list corev1.Container) : bool :=
  match containers with
  | [] => negb (size cm =? 0)%nat
  | container1 :: rest =>
      match cm !! corev1.Name container1 with
      | Some addr =>
          let container2 := load h addr in
          if containers_differ container1 container2 then true
          else match_template h (delete (corev1.Name container1) cm) rest
      | None => true   (* container name do not match *)
      end
  end.

Definition PodNotMatchingTemplate_under (scope : loopvar_scope)
    (pod : corev1.Pod) (template : corev1.PodTemplateSpec) : bool :=
  if String.eqb (corev1.Phase (corev1.Status pod)) corev1.PodRunning
     && bool_decide (metav1.DeletionTimestamp (corev1.ObjectMeta pod) = None)
  then
    if negb (length (corev1.Containers (corev1.TemplateSpec template))
             =? length (corev1.Containers (corev1.Spec pod)))%nat
    then true
    else
      let st := build_cmap scope 0 (corev1.Containers (corev1.Spec pod))
                  empty_cmap_state in
      match_template (heap st) (cmap st)
        (corev1.Containers (corev1.TemplateSpec template))
  else false.

Definition PodNotMatchingTemplate : corev1.Pod -> corev1.PodTemplateSpec -> bool :=
  PodNotMatchingTemplate_under PerLoop.

(** *** Sample pods and templates *)

Definition container (name image : string) (cpu : Quantity) : corev1.Container :=
  {| corev1.Name := name; corev1.Image := image;
     corev1.Resources :=
       {| corev1.Limits := {[ "cpu" := cpu ]};
          corev1.Requests := {[ "cpu" := cpu ]} |} |}.

Definition running_pod (containers : list corev1.Container) : corev1.Pod :=
  {| corev1.ObjectMeta :=
       {| metav1.Name := "raycluster-sample-head"; metav1.Namespace := "default";
          metav1.DeletionTimestamp := None |};
     corev1.Spec := {| corev1.Containers := containers;
                       corev1.ServiceAccountName := "" |};
     corev1.Status := {| corev1.Phase := corev1.PodRunning |} |}.

Definition template_of (containers : list corev1.Container) : corev1.PodTemplateSpec :=
  {| corev1.TemplateObjectMeta :=
       {| metav1.Name := ""; metav1.Namespace := "default";
          metav1.DeletionTimestamp := None |};
     corev1.TemplateSpec := {| corev1.Containers := containers;
                               corev1.ServiceAccountName := "" |} |}.

Definition ray_head : corev1.Container := container "ray-head" "rayproject/ray:1.12.1" (1 # 1).
Definition sidecar : corev1.Container := container "sidecar" "fluent/fluent-bit:1.9" (1 # 2).

(** Two resource lists hold the same amounts under the same names. *)
Definition resources_agree (r1 r2 : gmap string Quantity) : Prop :=
  forall name : string,
    match r1 !! name, r2 !! name with
    | Some quantity1, Some quantity2 => Qeq quantity1 quantity2
    | None, None => True
    | _, _ => False
    end.

(** A same-named pair of containers that agrees on the image and on the
    resource requests and limits. *)
Definition containers_agree (c1 c2 : corev1.Container) : Prop :=
  corev1.Name c1 = corev1.Name c2 /\
  corev1.Image c1 = corev1.Image c2 /\
  resources_agree (corev1.Requests (corev1.Resources c1))
                  (corev1.Requests (corev1.Resources c2)) /\
  resources_agree (corev1.Limits (corev1.Resources c1))
                  (corev1.Limits (corev1.Resources c2)).

(** The observed and desired containers of a pod that runs and is not
    being deleted. *)
Definition observed (pod : corev1.Pod) : list corev1.Container :=
  corev1.Containers (corev1.Spec pod).

Definition desired (template : corev1.PodTemplateSpec) : list corev1.Container :=
  corev1.Containers (corev1.TemplateSpec template).

Definition running_not_deleted (pod : corev1.Pod) : Prop :=
  corev1.Phase (corev1.Status pod) = corev1.PodRunning /\
  metav1.DeletionTimestamp (corev1.ObjectMeta pod) = None.

(** A pod whose two containers run different images, and two templates
    for it: the same containers in the other order, and the same
    containers with a newer image for the first one. *)
Definition pod_head_sidecar : corev1.Pod := running_pod [ray_head; sidecar].

Definition template_sidecar_head : corev1.PodTemplateSpec :=
  template_of [sidecar; ray_head].

Definition worker_old : corev1.Container :=
  container "ray-worker" "rayproject/ray:1.12.1" (1 # 1).
Definition worker_new : corev1.Container :=
  container "ray-worker" "rayproject/ray:1.13.0" (1 # 1).
Definition init_same : corev1.Container :=
  container "init" "rayproject/ray:1.13.0" (1 # 1).

Definition pod_worker_old : corev1.Pod := running_pod [worker_old; init_same].

Definition template_worker_new : corev1.PodTemplateSpec :=
  template_of [worker_new; init_same].

(** ** ConfigTranslator and DashboardSyncClient

    [interface{}] values as they come out of a YAML or JSON decoder. *)
#[local] Unset Elimination Schemes.
Inductive Any : Type :=
| ANil
| ABool (b : bool)
| AInt (z : Z)
| AFloat (bits : float64)
| AString (s : string)
| ASlice (l : list Any)
| AMap (m : list (string * Any)).
#[local] Set Elimination Schemes.

(** A Go [error] value, by its message. *)
Abbreviation error := string (only parsing).

(** Wire types of the dashboard API (declared in [serve_httpclient.go]). *)
Module RayActorOptionSpec.
Record t : Type := {
  RuntimeEnv : gmap string Any;
  NumCpus : option float64;
  NumGpus : option float64;
  Memory : option Z;
  ObjectStoreMemory : option Z;
  Resources : gmap string Any;
  AcceleratorType : string
}.
Definition zero : t :=
  {| RuntimeEnv := ∅; NumCpus := None; NumGpus := None; Memory := None;
     ObjectStoreMemory := None; Resources := ∅; AcceleratorType := "" |}.
End RayActorOptionSpec.

Module ServeConfigSpec.
Record t : Type := {
  Name : string;
  NumReplicas : option Z;
  RoutePrefix : string;
  MaxConcurrentQueries : option Z;
  UserConfig : gmap string Any;
  AutoscalingConfig : gmap string Any;
  GracefulShutdownWaitLoopS : option Z;
  GracefulShutdownTimeoutS : option Z;
  HealthCheckPeriodS : option Z;
  HealthCheckTimeoutS : option Z;
  RayActorOptions : RayActorOptionSpec.t
}.
(** The zero value, as [make([]ServeConfigSpec, n)] fills the slice. *)
Definition zero : t :=
  {| Name := ""; NumReplicas := None; RoutePrefix := "";
     MaxConcurrentQueries := None; UserConfig := ∅; AutoscalingConfig := ∅;
     GracefulShutdownWaitLoopS := None; GracefulShutdownTimeoutS := None;
     HealthCheckPeriodS := None; HealthCheckTimeoutS := None;
     RayActorOptions := RayActorOptionSpec.zero |}.
End ServeConfigSpec.

Module ServingClusterDeployments.
Record t : Type := {
  ImportPath : string;
  RuntimeEnv : gmap string Any;
  Deployments : list ServeConfigSpec.t
}.
End ServingClusterDeployments.

Module http.
Record Request : Type := {
  Method : string;
  URL : string;
  Header : gmap string string;
  Body : option string
}.

Record Response : Type := {
  StatusCode : Z;
  ResponseBody : string
}.

(** [http.Client]: only its [Timeout] is set by this package. *)
Record Client : Type := { Timeout : Z (* nanoseconds *) }.

(** [req.Header.Set(key, value)] *)
Definition Header_Set (req : Request) (key value : string) : Request :=
  {| Method := Method req; URL := URL req;
     Header := <[key := value]> (Header req); Body := Body req |}.
End http.

Definition DeployPath : string := "/api/serve/deployments/".
Definition StatusPath : string := "/api/serve/deployments/status".

Record RayDashboardClient : Type := {
  client : http.Client;
  dashboardURL : string
}.

Definition Second : Z := 1000000000.

Definition InitClient (r : RayDashboardClient) (url : string) : RayDashboardClient :=
  {| client := {| http.Timeout := 2 * Second |};
     dashboardURL := "http://" +:+ url |}.

Section Dashboard.
(** The libraries and the network behind the client.

    - [yaml_Unmarshal text m]: [yaml.Unmarshal([]byte(text), &m)], the
      map after the call and the error, if any.  The package discards
      the error and keeps whatever the map then holds.
    - [json_Marshal]: [json.Marshal] at [ServingClusterDeployments].
    - [http_NewRequest method url body].
    - [client_Do]: the round trip [r.client.Do(req)]: a response, with
      whatever status code the server chose, or a transport error. *)
Variable yaml_Unmarshal : string -> gmap string Any -> gmap string Any * option error.
Variable json_Marshal : ServingClusterDeployments.t -> string + error.
Variable http_NewRequest : string -> string -> option string -> http.Request + error.
Variable client_Do : http.Client -> http.Request -> http.Response + error.

(** [m := make(map[string]interface{}); _ = yaml.Unmarshal([]byte(text), &m)] *)
Definition decode_blob (text : string) : gmap string Any :=
  (yaml_Unmarshal text ∅).1.

(** The body of the loop of [ConvertServeConfig]: the value stored in
    [serveConfigToSend[i]] for [config]. *)
Definition convert_config (config : rayv1alpha1.ServeConfigSpec.t) : ServeConfigSpec.t :=
  let userConfig := decode_blob (rayv1alpha1.ServeConfigSpec.UserConfig config) in
  let autoscalingConfig :=
    decode_blob (rayv1alpha1.ServeConfigSpec.AutoscalingConfig config) in
  let runtimeEnv :=
    decode_blob (rayv1alpha1.RayActorOptionSpec.RuntimeEnv
                   (rayv1alpha1.ServeConfigSpec.RayActorOptions config)) in
  let resources :=
    decode_blob (rayv1alpha1.RayActorOptionSpec.Resources
                   (rayv1alpha1.ServeConfigSpec.RayActorOptions config)) in
  {| ServeConfigSpec.Name := rayv1alpha1.ServeConfigSpec.Name config;
     ServeConfigSpec.NumReplicas := rayv1alpha1.ServeConfigSpec.NumReplicas config;
     ServeConfigSpec.RoutePrefix := rayv1alpha1.ServeConfigSpec.RoutePrefix config;
     ServeConfigSpec.MaxConcurrentQueries :=
       rayv1alpha1.ServeConfigSpec.MaxConcurrentQueries config;
     ServeConfigSpec.UserConfig := userConfig;
     ServeConfigSpec.AutoscalingConfig := autoscalingConfig;
     ServeConfigSpec.GracefulShutdownWaitLoopS :=
       rayv1alpha1.ServeConfigSpec.GracefulShutdownWaitLoopS config;
     ServeConfigSpec.GracefulShutdownTimeoutS :=
       rayv1alpha1.ServeConfigSpec.GracefulShutdownTimeoutS config;
     ServeConfigSpec.HealthCheckPeriodS :=
       rayv1alpha1.ServeConfigSpec.HealthCheckPeriodS config;
     ServeConfigSpec.HealthCheckTimeoutS :=
       rayv1alpha1.ServeConfigSpec.GracefulShutdownTimeoutS config;
     ServeConfigSpec.RayActorOptions :=
       {| RayActorOptionSpec.RuntimeEnv := runtimeEnv;
          RayActorOptionSpec.NumCpus :=
            rayv1alpha1.RayActorOptionSpec.NumCpus
              (rayv1alpha1.ServeConfigSpec.RayActorOptions config);
          RayActorOptionSpec.NumGpus :=
            rayv1alpha1.RayActorOptionSpec.NumGpus
              (rayv1alpha1.ServeConfigSpec.RayActorOptions config);
          RayActorOptionSpec.Memory :=
            rayv1alpha1.RayActorOptionSpec.Memory
              (rayv1alpha1.ServeConfigSpec.RayActorOptions config);
          RayActorOptionSpec.ObjectStoreMemory :=
            rayv1alpha1.RayActorOptionSpec.ObjectStoreMemory
              (rayv1alpha1.ServeConfigSpec.RayActorOptions config);
          RayActorOptionSpec.Resources := resources;
          RayActorOptionSpec.AcceleratorType :=
            rayv1alpha1.RayActorOptionSpec.AcceleratorType
              (rayv1alpha1.ServeConfigSpec.RayActorOptions config) |} |}.

(** [for i, config := range specs { serveConfigToSend[i] = ... }], from
    index [i] on.  The slice has [len(specs)] elements, so the index
    is always within it and the assignment never panics. *)
Fixpoint convert_loop (i : nat) (specs : list rayv1alpha1.ServeConfigSpec.t)
    (serveConfigToSend : list ServeConfigSpec.t) : list ServeConfigSpec.t :=
  match specs with
  | [] => serveConfigToSend
  | config :: rest =>
      convert_loop (S i) rest (<[i := convert_config config]> serveConfigToSend)
  end.

Definition ConvertServeConfig (specs : list rayv1alpha1.ServeConfigSpec.t)
  : list ServeConfigSpec.t :=
  let serveConfigToSend := replicate (length specs) ServeConfigSpec.zero in
  convert_loop 0 specs serveConfigToSend.

(** The value of [servingClusterDeployments] in [UpdateDeployments]. *)
Definition servingClusterDeployments_of
    (specs : rayv1alpha1.ServeDeploymentGraphSpec.t) : ServingClusterDeployments.t :=
  let runtimeEnv := decode_blob (rayv1alpha1.ServeDeploymentGraphSpec.RuntimeEnv specs) in
  {| ServingClusterDeployments.ImportPath :=
       rayv1alpha1.ServeDeploymentGraphSpec.ImportPath specs;
     ServingClusterDeployments.RuntimeEnv := runtimeEnv;
     ServingClusterDeployments.Deployments :=
       ConvertServeConfig (rayv1alpha1.ServeDeploymentGraphSpec.ServeConfigSpecs specs) |}.

(** [UpdateDeployments]: [None] is the [nil] error. *)
Definition UpdateDeployments (r : RayDashboardClient)
    (specs : rayv1alpha1.ServeDeploymentGraphSpec.t) : option error :=
  let servingClusterDeployments := servingClusterDeployments_of specs in
  match json_Marshal servingClusterDeployments with
  | inr err => Some err
  | inl deploymentJson =>
      match http_NewRequest "PUT" (dashboardURL r +:+ DeployPath) (Some deploymentJson) with
      | inr err => Some err
      | inl req =>
          let req := http.Header_Set req "Content-Type" "application/json" in
          match client_Do (client r) req with
          | inr err => Some err
          | inl resp => None    (* defer resp.Body.Close(); return nil *)
          end
      end
  end.
End Dashboard.

(** ** StructuralEqualityComparator: [CompareJsonStruct] *)

Section CompareJson.
(** [GoValue] stands for the dynamic values an [interface{}] argument
    can hold; [json_Marshal] and [json_Unmarshal] are the two library
    calls with their [error] results, [reflect_DeepEqual] the final
    comparison of the two decoded trees. *)
Variable GoValue : Type.
Variable json_Marshal : GoValue -> string + error.
Variable json_Unmarshal : string -> Any + error.
Variable reflect_DeepEqual : Any -> Any -> bool.

Definition CompareJsonStruct (objA objB : GoValue) : bool :=
  match json_Marshal objA with
  | inr _ => false
  | inl a =>
      match json_Marshal objB with
      | inr _ => false
      | inl b =>
          match json_Unmarshal a with
          | inr _ => false
          | inl v1 =>
              match json_Unmarshal b with
              | inr _ => false
              | inl v2 => reflect_DeepEqual v1 v2
              end
          end
      end
  end.
End CompareJson.

(** *** Sample serve configuration and sample collaborators *)

Definition actor_options_sample : rayv1alpha1.RayActorOptionSpec.t :=
  {| rayv1alpha1.RayActorOptionSpec.RuntimeEnv := "";
     rayv1alpha1.RayActorOptionSpec.NumCpus := None;
     rayv1alpha1.RayActorOptionSpec.NumGpus := None;
     rayv1alpha1.RayActorOptionSpec.Memory := Some 1024;
     rayv1alpha1.RayActorOptionSpec.ObjectStoreMemory := None;
     rayv1alpha1.RayActorOptionSpec.Resources := "";
     rayv1alpha1.RayActorOptionSpec.AcceleratorType := "" |}.

(** A deployment with a graceful-shutdown timeout of 20 s and a
    health-check timeout of 30 s. *)
Definition serve_config_sample : rayv1alpha1.ServeConfigSpec.t :=
  {| rayv1alpha1.ServeConfigSpec.Name := "shallow";
     rayv1alpha1.ServeConfigSpec.NumReplicas := Some 1;
     rayv1alpha1.ServeConfigSpec.RoutePrefix := "/shallow";
     rayv1alpha1.ServeConfigSpec.MaxConcurrentQueries := Some 100;
     rayv1alpha1.ServeConfigSpec.UserConfig := "";
     rayv1alpha1.ServeConfigSpec.AutoscalingConfig := "";
     rayv1alpha1.ServeConfigSpec.GracefulShutdownWaitLoopS := Some 2;
     rayv1alpha1.ServeConfigSpec.GracefulShutdownTimeoutS := Some 20;
     rayv1alpha1.ServeConfigSpec.HealthCheckPeriodS := Some 10;
     rayv1alpha1.ServeConfigSpec.HealthCheckTimeoutS := Some 30;
     rayv1alpha1.ServeConfigSpec.RayActorOptions := actor_options_sample |}.

Definition serve_config_other : rayv1alpha1.ServeConfigSpec.t :=
  {| rayv1alpha1.ServeConfigSpec.Name := "deep";
     rayv1alpha1.ServeConfigSpec.NumReplicas := None;
     rayv1alpha1.ServeConfigSpec.RoutePrefix := "";
     rayv1alpha1.ServeConfigSpec.MaxConcurrentQueries := None;
     rayv1alpha1.ServeConfigSpec.UserConfig := "threshold: 3";
     rayv1alpha1.ServeConfigSpec.AutoscalingConfig := "";
     rayv1alpha1.ServeConfigSpec.GracefulShutdownWaitLoopS := None;
     rayv1alpha1.ServeConfigSpec.GracefulShutdownTimeoutS := None;
     rayv1alpha1.ServeConfigSpec.HealthCheckPeriodS := None;
     rayv1alpha1.ServeConfigSpec.HealthCheckTimeoutS := None;
     rayv1alpha1.ServeConfigSpec.RayActorOptions := actor_options_sample |}.

Definition graph_sample : rayv1alpha1.ServeDeploymentGraphSpec.t :=
  {| rayv1alpha1.ServeDeploymentGraphSpec.ImportPath := "fruit.deployment_graph";
     rayv1alpha1.ServeDeploymentGraphSpec.RuntimeEnv := "";
     rayv1alpha1.ServeDeploymentGraphSpec.ServeConfigSpecs :=
       [serve_config_sample; serve_config_other] |}.

(** A decoder that rejects every text and leaves the map as it was. *)
Definition yaml_rejects (text : string) (m : gmap string Any)
  : gmap string Any * option error :=
  (m, Some "yaml: unsupported").

(** An encoder that always succeeds with the same body. *)
Definition marshal_fixed (d : ServingClusterDeployments.t) : string + error :=
  inl "{}".

Definition new_request (method url : string) (body : option string)
  : http.Request + error :=
  inl {| http.Method := method; http.URL := url; http.Header := ∅; http.Body := body |}.

(** A server that answers every request with 500 Internal Server Error. *)
Definition server_500 (c : http.Client) (req : http.Request) : http.Response + error :=
  inl {| http.StatusCode := 500; http.ResponseBody := "Internal Server Error" |}.

Definition dashboard_sample : RayDashboardClient :=
  InitClient {| client := {| http.Timeout := 0 |}; dashboardURL := "" |}
             "raycluster-sample-head-svc:8265".

(** Sample collaborators of [CompareJsonStruct] over the values [Any]:
    an encoder that knows booleans and strings only and reports an error
    for anything else, a decoder that accepts the two boolean literals,
    and the comparison of two decoded booleans. *)
Definition marshal_scalar (v : Any) : string + error :=
  match v with
  | ABool true => inl "true"
  | ABool false => inl "false"
  | AString s => inl s
  | _ => inr "json: unsupported type"
  end.

Definition unmarshal_scalar (text : string) : Any + error :=
  if String.eqb text "true" then inl (ABool true)
  else if String.eqb text "false" then inl (ABool false)
  else inr "invalid character".

Definition deep_equal_scalar (v1 v2 : Any) : bool :=
  match v1, v2 with
  | ABool b1, ABool b2 => Bool.eqb b1 b2
  | _, _ => false
  end.

(** ** The remaining helpers of [util.go] *)

(** [IsCreated]: [pod.Status.Phase != ""]. *)
Definition IsCreated (pod : corev1.Pod) : bool :=
  negb (String.eqb (corev1.Phase (corev1.Status pod)) "").

(** [s[lo:hi]] *)
Definition slice (s : string) (lo hi : Z) : exec string :=
  if (0 <=? lo) && (lo <=? hi) && (hi <=? len s)
  then Ret (take_bytes (Z.to_nat (hi - lo)) (drop_bytes (Z.to_nat lo) s))
  else Panic SliceBoundsOutOfRange.

(** [strings.Index(s, substr)]: the index of the first instance of
    [substr] in [s], or -1 when there is none. *)
Fixpoint strings_Index (s substr : string) : Z :=
  if String.prefix substr s then 0
  else match s with
       | EmptyString => -1
       | String _ s' =>
           let r := strings_Index s' substr in
           if r =? -1 then -1 else r + 1
       end.

(** [Before]: the part of [value] before the first [a]. *)
Definition Before (value a : string) : exec string :=
  let pos := strings_Index value a in
  if pos =? -1 then Ret ""
  else slice value 0 pos.

(** [a] occurs in [value]. *)
Definition occurs (a value : string) : Prop :=
  exists pre rest : string, value = pre +:+ a +:+ rest.

(** [GetNamespace] *)
Definition GetNamespace (metaData : metav1.ObjectMeta) : string :=
  if String.eqb (metav1.Namespace metaData) "" then "default"
  else metav1.Namespace metaData.

Definition RayClusterSuffix : string := "-raycluster-".
Definition DashboardName : string := "dashboard".

Section Names.
(** [rayiov1alpha1.HeadNode], a constant of the string type
    [RayNodeType] declared with the API types. *)
Variable HeadNode : string.

(** [fmt.Sprintf] with only [%s] verbs and string arguments is
    concatenation. *)
Definition GenerateServiceName (clusterName : string) : string :=
  clusterName +:+ "-" +:+ HeadNode +:+ "-" +:+ "svc".

Definition GenerateDashboardServiceName (clusterName : string) : string :=
  clusterName +:+ "-" +:+ DashboardName +:+ "-" +:+ "svc".

Definition GenerateDashboardAgentLabel (clusterName : string) : string :=
  clusterName +:+ "-" +:+ DashboardName.

Definition GenerateIngressName (clusterName : string) : string :=
  clusterName +:+ "-" +:+ HeadNode +:+ "-" +:+ "ingress".

(** [GenerateRayClusterName]; [random] is the value of [rand.String(5)]. *)
Definition GenerateRayClusterName (random : string) (serviceName : string) : string :=
  serviceName +:+ RayClusterSuffix +:+ random.

Definition GenerateIdentifier (clusterName nodeType : string) : string :=
  clusterName +:+ "-" +:+ nodeType.
End Names.

(** [sort.Search(n, f)]: binary search for the smallest index in [0, n]
    at which [f] is true, assuming [f] is false on a prefix of [0, n)
    and true on the rest.  The loop is
    [for i < j { h := int(uint(i+j) >> 1); if !f(h) { i = h + 1 } else { j = h } }];
    [fuel] bounds its iterations and [j - i] of them always suffice. *)
Fixpoint search_loop (fuel : nat) (f : nat -> bool) (i j : nat) : nat :=
  if (i <? j)%nat then
    match fuel with
    | O => i
    | S fuel' =>
        let h := ((i + j) / 2)%nat in
        if negb (f h) then search_loop fuel' f (h + 1)%nat j
        else search_loop fuel' f i h
    end
  else i.

Definition sort_Search (n : nat) (f : nat -> bool) : nat :=
  search_loop n f 0%nat n.

(** [sort.SearchStrings(a, x)]: [Search(len(a), func(i) { return a[i] >= x })]. *)
Definition sort_SearchStrings (a : list string) (x : string) : nat :=
  sort_Search (length a) (fun i => negb (String.ltb (nth i a "") x)).

(** [Contains] *)
Definition Contains (s : list string) (searchTerm : string) : bool :=
  let i := sort_SearchStrings s searchTerm in
  (i <? length s)%nat && String.eqb (nth i s "") searchTerm.

(** A slice of strings in increasing order, as [sort.Strings] leaves it. *)
Definition strings_sorted (s : list string) : Prop :=
  forall i j : nat, (i <= j)%nat -> (j < length s)%nat ->
                    String.leb (nth i s "") (nth j s "") = true.

(** [strings.Compare(a, b)] *)
Definition strings_Compare (a b : string) : Z :=
  match String.compare a b with
  | Lt => -1
  | Eq => 0
  | Gt => 1
  end.

(** [FilterContainerByName]: the pair of results; the error is [None]
    for [nil]. *)
Fixpoint FilterContainerByName (containers : list corev1.Container) (name : string)
  : corev1.Container * option error :=
  match containers with
  | [] => (corev1.zero_Container, Some ("can not find container " +:+ name))
  | container :: rest =>
      if strings_Compare (corev1.Name container) name =? 0
      then (container, None)
      else FilterContainerByName rest name
  end.

(** [CheckAllPodsRunnning] *)
Fixpoint CheckAllPodsRunnning_items (items : list corev1.Pod) : bool :=
  match items with
  | [] => true
  | pod :: rest =>
      if negb (String.eqb (corev1.Phase (corev1.Status pod)) corev1.PodRunning)
      then false
      else CheckAllPodsRunnning_items rest
  end.

Definition CheckAllPodsRunnning (runningPods : corev1.PodList) : bool :=
  CheckAllPodsRunnning_items (corev1.Items runningPods).

(** ** DashboardSyncClient: the two reads *)

Section DashboardReads.
(** [AppStatus] and [ServeDeploymentStatus] are declared with the API
    types; the client only stores and returns them. *)
Variable AppStatus : Type.
Variable ServeDeploymentStatus : Type.

Record ServeDeploymentStatuses : Type := {
  ApplicationStatus : AppStatus;
  DeploymentStatuses : list ServeDeploymentStatus
}.

(** - [ioutil_ReadAll resp]: [ioutil.ReadAll(resp.Body)], the bytes read
      and the error, if any;
    - [json_Unmarshal_statuses body]: [json.Unmarshal(body, &serveStatuses)]
      on a zero [serveStatuses]: the filled value, or the error. *)
Variable http_NewRequest : string -> string -> option string -> http.Request + error.
Variable client_Do : http.Client -> http.Request -> http.Response + error.
Variable ioutil_ReadAll : http.Response -> string * option error.
Variable json_Unmarshal_statuses : string -> ServeDeploymentStatuses + error.

(** [GetDeployments]: the pair [(string, error)]. *)
Definition GetDeployments (r : RayDashboardClient) : string * option error :=
  match http_NewRequest "GET" (dashboardURL r +:+ DeployPath) None with
  | inr err => ("", Some err)
  | inl req =>
      match client_Do (client r) req with
      | inr err => ("", Some err)
      | inl resp =>
          let '(body, _) := ioutil_ReadAll resp in   (* body, _ := ioutil.ReadAll *)
          (body, None)
      end
  end.

(** [GetDeploymentsStatus]: the pair of a pointer to
    [ServeDeploymentStatuses] and an error, the pointer being [None] for
    [nil]. *)
Definition GetDeploymentsStatus (r : RayDashboardClient)
  : option ServeDeploymentStatuses * option error :=
  match http_NewRequest "GET" (dashboardURL r +:+ StatusPath) None with
  | inr err => (None, Some err)
  | inl req =>
      match client_Do (client r) req with
      | inr err => (None, Some err)
      | inl resp =>
          let '(body, _) := ioutil_ReadAll resp in
          match json_Unmarshal_statuses body with
          | inr err => (None, Some err)
          | inl serveStatuses => (Some serveStatuses, None)
          end
      end
  end.
End DashboardReads.

(** *** More sample collaborators *)

(** A decoder that leaves the map as it was and reports nothing. *)
Definition yaml_ignores (text : string) (m : gmap string Any)
  : gmap string Any * option error :=
  (m, None).

(** A body that breaks off: some bytes, then an error. *)
Definition read_breaks_off (resp : http.Response) : string * option error :=
  (http.ResponseBody resp, Some "unexpected EOF").

(** A status decoder over [unit] statuses that accepts only the empty
    object. *)
Definition unmarshal_statuses_sample (body : string)
  : ServeDeploymentStatuses unit unit + error :=
  if String.eqb body "{}"
  then inl {| ApplicationStatus := tt; DeploymentStatuses := [] |}
  else inr "invalid character".

(** A transport on which every round trip times out. *)
Definition network_down (c : http.Client) (req : http.Request)
  : http.Response + error :=
  inr "context deadline exceeded".
(** * Properties *)

(** ** Arithmetic helpers *)

Lemma round53_exact (z : Z) : Z.abs z < 2 ^ 53 -> round53 z = z.
Proof.
  intros Hz. unfold round53. cbv zeta.
  destruct (Z.ltb_spec (Z.abs z) (2 ^ 53)); [reflexivity | lia].
Qed.

Lemma wrap_int32_small (z : Z) : in_int32 z -> wrap_int32 z = z.
Proof.
  unfold in_int32, int32_min, int32_max, wrap_int32, int32_modulus.
  intros Hz. rewrite Z.mod_small; lia.
Qed.

Lemma wrap_int32_range (z : Z) : in_int32 (wrap_int32 z).
Proof.
  unfold in_int32, int32_min, int32_max, wrap_int32, int32_modulus.
  pose proof (Z.mod_pos_bound (z + 2 ^ 31) (2 ^ 32) ltac:(lia)). lia.
Qed.

(** Wrapping once at the end is the same as wrapping at every addition. *)
Lemma wrap_int32_add_l (a b : Z) :
  wrap_int32 (wrap_int32 a + b) = wrap_int32 (a + b).
Proof.
  unfold wrap_int32, int32_modulus.
  f_equal.
  replace ((a + 2 ^ 31) mod 2 ^ 32 - 2 ^ 31 + b + 2 ^ 31)
    with ((a + 2 ^ 31) mod 2 ^ 32 + b) by lia.
  rewrite Zplus_mod_idemp_l. f_equal. lia.
Qed.

(** ** Byte strings *)

Lemma length_drop_bytes (n : nat) (s : string) :
  String.length (drop_bytes n s) = (String.length s - n)%nat.
Proof.
  revert s. induction n as [|n IH]; intros [|c s]; simpl; auto with arith.
Qed.

Lemma append_cons (c : ascii) (s t : string) :
  String c s +:+ t = String c (s +:+ t).
Proof. reflexivity. Qed.

Lemma take_drop_bytes (n : nat) (s : string) :
  take_bytes n s +:+ drop_bytes n s = s.
Proof.
  revert s. induction n as [|n IH]; intros [|c s]; try reflexivity.
  cbn [take_bytes drop_bytes]. rewrite append_cons. f_equal. apply IH.
Qed.

Lemma length_take_bytes (n : nat) (s : string) :
  String.length (take_bytes n s) = Nat.min n (String.length s).
Proof.
  revert s. induction n as [|n IH]; intros [|c s]; simpl; auto.
Qed.

Lemma len_nonneg (s : string) : 0 <= len s.
Proof. unfold len. lia. Qed.

Lemma len_cons (c : ascii) (s : string) : len (String c s) = len s + 1.
Proof. unfold len. simpl. lia. Qed.

Lemma len_zero_empty (s : string) : len s = 0 -> s = "".
Proof. destruct s; [reflexivity | rewrite len_cons; pose proof (len_nonneg s); lia]. Qed.

Lemma byte_at_head (c : ascii) (s : string) : byte_at (String c s) 0 = Ret c.
Proof.
  unfold byte_at. rewrite len_cons. pose proof (len_nonneg s).
  destruct (Z.ltb_spec 0 (len s + 1)); [reflexivity | lia].
Qed.

Lemma byte_at_empty (i : Z) : byte_at "" i = Panic IndexOutOfRange.
Proof.
  unfold byte_at. change (len "") with 0.
  destruct (Z.leb_spec 0 i), (Z.ltb_spec i 0); simpl; try reflexivity; lia.
Qed.

Lemma replace_first_cons (c : ascii) (s : string) :
  replace_first (String c s) = Ret (String "r" s).
Proof.
  unfold replace_first, slice_from. rewrite len_cons. pose proof (len_nonneg s).
  destruct (Z.leb_spec 1 (len s + 1)); [reflexivity | lia].
Qed.

(** ** The shortening step *)

Lemma shorten_short (m : Z) (s : string) : len s <= m -> shorten m s = Ret s.
Proof.
  intros H. unfold shorten. destruct (Z.ltb_spec m (len s)); [lia | reflexivity].
Qed.

Lemma shorten_long (m : Z) (s : string) :
  0 <= m -> m < len s -> len s < 2 ^ 53 ->
  shorten m s = Ret (drop_bytes (Z.to_nat (len s - m)) s).
Proof.
  intros Hm Hlt Hbound. unfold shorten.
  destruct (Z.ltb_spec m (len s)); [| lia].
  unfold int_of_float64, math_Abs, float64_sub, float64_of_int.
  rewrite (round53_exact m), (round53_exact (len s)) by lia.
  rewrite round53_exact by lia.
  replace (Z.abs (m - len s)) with (len s - m) by lia.
  unfold slice_from.
  destruct (Z.leb_spec 0 (len s - m)); [| lia].
  destruct (Z.leb_spec (len s - m) (len s)); [reflexivity | lia].
Qed.

Lemma len_drop_bytes (n : Z) (s : string) :
  0 <= n <= len s -> len (drop_bytes (Z.to_nat n) s) = len s - n.
Proof.
  intros H. unfold len in *. rewrite length_drop_bytes. lia.
Qed.

(** [shorten] keeps a suffix: exactly the trailing [m] bytes of a long
    input, the whole input otherwise. *)
Lemma shorten_suffix (m : Z) (s : string) :
  0 <= m -> len s < 2 ^ 53 ->
  exists pre t, s = pre +:+ t /\ shorten m s = Ret t /\ len t = Z.min m (len s).
Proof.
  intros Hm Hbound. destruct (Z.le_gt_cases (len s) m) as [Hle | Hgt].
  - exists "", s. rewrite shorten_short by assumption.
    repeat split; [lia].
  - exists (take_bytes (Z.to_nat (len s - m)) s), (drop_bytes (Z.to_nat (len s - m)) s).
    rewrite take_drop_bytes, shorten_long, len_drop_bytes by lia.
    repeat split; lia.
Qed.

(** ** The leading-character fix-ups on a non-empty string *)

Lemma IsPunct_r : unicode_IsPunct (rune "r") = false.
Proof. reflexivity. Qed.

Lemma digit_not_punct (r : Z) : unicode_IsDigit r = true -> unicode_IsPunct r = false.
Proof.
  unfold unicode_IsDigit. intros H. apply andb_prop in H as [H1 H2].
  apply Z.leb_le in H1, H2.
  assert (Hc : r = 48 \/ r = 49 \/ r = 50 \/ r = 51 \/ r = 52 \/ r = 53 \/
               r = 54 \/ r = 55 \/ r = 56 \/ r = 57) by lia.
  repeat (destruct Hc as [-> | Hc]; [reflexivity |]). now subst.
Qed.

Lemma CheckName_short (c : ascii) (t : string) :
  len (String c t) <= 50 -> CheckName (String c t) = Ret (fix_name c t).
Proof.
  intros H. unfold CheckName, fix_name. cbv zeta.
  rewrite shorten_short by assumption. cbn [exec_bind].
  rewrite byte_at_head. cbn [exec_bind].
  destruct (unicode_IsDigit (rune c)) eqn:Hd.
  - rewrite replace_first_cons. cbn [exec_bind].
    rewrite byte_at_head. cbn [exec_bind]. rewrite IsPunct_r. reflexivity.
  - cbn [exec_bind]. rewrite byte_at_head. cbn [exec_bind orb].
    destruct (unicode_IsPunct (rune c)).
    + rewrite replace_first_cons. reflexivity.
    + reflexivity.
Qed.

Lemma CheckLabel_short (c : ascii) (t : string) :
  len (String c t) <= 63 -> CheckLabel (String c t) = Ret (fix_label c t).
Proof.
  intros H. unfold CheckLabel, fix_label. cbv zeta.
  rewrite shorten_short by assumption. cbn [exec_bind].
  rewrite byte_at_head. cbn [exec_bind].
  destruct (unicode_IsPunct (rune c)).
  - rewrite replace_first_cons. reflexivity.
  - reflexivity.
Qed.

(** On a long input both functions behave as on its shortened form. *)
Lemma CheckName_shorten (s t : string) :
  shorten 50 s = Ret t -> len t <= 50 -> CheckName s = CheckName t.
Proof.
  intros Hs Ht. unfold CheckName. cbv zeta.
  rewrite Hs, (shorten_short 50 t) by assumption. reflexivity.
Qed.

Lemma CheckLabel_shorten (s t : string) :
  shorten 63 s = Ret t -> len t <= 63 -> CheckLabel s = CheckLabel t.
Proof.
  intros Hs Ht. unfold CheckLabel. cbv zeta.
  rewrite Hs, (shorten_short 63 t) by assumption. reflexivity.
Qed.

Lemma CheckName_suffix (s : string) :
  s <> "" -> len s < 2 ^ 53 ->
  exists pre c t,
    s = pre +:+ String c t /\ shorten 50 s = Ret (String c t) /\
    len (String c t) = Z.min 50 (len s) /\
    CheckName s = Ret (fix_name c t).
Proof.
  intros Hne Hbound.
  destruct (shorten_suffix 50 s) as (pre & u & Hs & Hsh & Hlen); [lia | assumption |].
  destruct u as [|c t].
  - change (len "") with 0 in Hlen.
    assert (len s = 0) by (pose proof (len_nonneg s); lia).
    exfalso. apply Hne. now apply len_zero_empty.
  - exists pre, c, t. repeat split; try assumption.
    rewrite (CheckName_shorten s (String c t)) by (assumption || lia).
    apply CheckName_short. lia.
Qed.

Lemma CheckLabel_suffix (s : string) :
  s <> "" -> len s < 2 ^ 53 ->
  exists pre c t,
    s = pre +:+ String c t /\ shorten 63 s = Ret (String c t) /\
    len (String c t) = Z.min 63 (len s) /\
    CheckLabel s = Ret (fix_label c t).
Proof.
  intros Hne Hbound.
  destruct (shorten_suffix 63 s) as (pre & u & Hs & Hsh & Hlen); [lia | assumption |].
  destruct u as [|c t].
  - change (len "") with 0 in Hlen.
    assert (len s = 0) by (pose proof (len_nonneg s); lia).
    exfalso. apply Hne. now apply len_zero_empty.
  - exists pre, c, t. repeat split; try assumption.
    rewrite (CheckLabel_shorten s (String c t)) by (assumption || lia).
    apply CheckLabel_short. lia.
Qed.

(** ** Claims about the name sanitizer *)

(** C5, as amended.  [CheckLabel] shortens an over-long input to its
    trailing 63 bytes and then replaces the first byte with the letter r
    exactly when that byte is a punctuation character; any other first
    byte, a digit included, is kept, and the remainder of the string is
    never touched.  (Lengths are below 2^53, where the float64 round
    trip of the offset is exact.) *)
Theorem CheckLabel_replaces_leading_punct_only (s : string) :
  s <> "" -> len s < 2 ^ 53 ->
  exists pre c t,
    s = pre +:+ String c t /\
    len (String c t) = Z.min 63 (len s) /\
    shorten 63 s = Ret (String c t) /\
    (unicode_IsPunct (rune c) = true -> CheckLabel s = Ret (String "r" t)) /\
    (unicode_IsPunct (rune c) = false -> CheckLabel s = Ret (String c t)) /\
    (unicode_IsDigit (rune c) = true -> CheckLabel s = Ret (String c t)).
Proof.
  intros Hne Hbound.
  destruct (CheckLabel_suffix s Hne Hbound) as (pre & c & t & Hs & Hsh & Hlen & Hr).
  exists pre, c, t. unfold fix_label in Hr.
  repeat split; try assumption.
  - intros Hp. now rewrite Hp in Hr.
  - intros Hp. now rewrite Hp in Hr.
  - intros Hd. now rewrite (digit_not_punct _ Hd) in Hr.
Qed.

Lemma CheckLabel_replaces_leading_punct_only_witness :
  "-head" <> "" /\ len "-head" < 2 ^ 53 /\
  exists pre c t,
    "-head" = pre +:+ String c t /\
    len (String c t) = Z.min 63 (len "-head") /\
    shorten 63 "-head" = Ret (String c t) /\
    (unicode_IsPunct (rune c) = true -> CheckLabel "-head" = Ret (String "r" t)) /\
    (unicode_IsPunct (rune c) = false -> CheckLabel "-head" = Ret (String c t)) /\
    (unicode_IsDigit (rune c) = true -> CheckLabel "-head" = Ret (String c t)).
Proof.
  split; [discriminate |]. split; [reflexivity |].
  apply (CheckLabel_replaces_leading_punct_only "-head"); [discriminate | reflexivity].
Defined.

(** C5, as written, fails: the label ["1abc"] starts with a digit, needs
    no shortening, and is returned unchanged. *)
Lemma CheckLabel_keeps_leading_digit :
  shorten 63 "1abc" = Ret "1abc" /\
  unicode_IsDigit (rune "1") = true /\
  CheckLabel "1abc" = Ret "1abc" /\
  CheckLabel "1abc" <> Ret "rabc".
Proof. repeat split. discriminate. Qed.

(** C6.  On an input of more than 50 bytes [CheckName] first drops a
    prefix so that exactly the trailing 50 bytes remain, then continues
    as on that suffix; when the suffix starts with a digit the result is
    the suffix with its first byte replaced by the letter r. *)
Theorem CheckName_long_keeps_trailing_50 (s : string) :
  50 < len s -> len s < 2 ^ 53 ->
  exists pre t,
    s = pre +:+ t /\ len t = 50 /\
    shorten 50 s = Ret t /\
    CheckName s = CheckName t /\
    forall c t', t = String c t' -> unicode_IsDigit (rune c) = true ->
                 CheckName s = Ret (String "r" t').
Proof.
  intros Hlong Hbound.
  assert (Hne : s <> "") by (intros ->; change (len "") with 0 in Hlong; lia).
  destruct (CheckName_suffix s Hne Hbound) as (pre & c & t & Hs & Hsh & Hlen & Hr).
  exists pre, (String c t). repeat split; try assumption; [lia | |].
  - apply CheckName_shorten; [assumption | lia].
  - intros c' t' [= <- <-] Hd. rewrite Hr. unfold fix_name. now rewrite Hd.
Qed.

Lemma CheckName_long_keeps_trailing_50_witness :
  let s := "cluster-0123456789-0123456789-0123456789-0123456789-0123456789" in
  50 < len s /\ len s < 2 ^ 53 /\
  exists pre t,
    s = pre +:+ t /\ len t = 50 /\
    shorten 50 s = Ret t /\
    CheckName s = CheckName t /\
    forall c t', t = String c t' -> unicode_IsDigit (rune c) = true ->
                 CheckName s = Ret (String "r" t').
Proof.
  cbv zeta. split; [reflexivity |]. split; [reflexivity |].
  apply (CheckName_long_keeps_trailing_50
           "cluster-0123456789-0123456789-0123456789-0123456789-0123456789");
    reflexivity.
Defined.

(** The example of the specification: 67 bytes, of which the trailing 50
    start with a letter, so only the shortening shows. *)
Example CheckName_spec_example :
  CheckName "123-very-long-name-that-exceeds-the-fifty-character-budget-for-sure"
  = Ret "e-that-exceeds-the-fifty-character-budget-for-sure".
Proof. reflexivity. Qed.

Example CheckName_long_leading_digit :
  CheckName "cluster-0123456789-0123456789-0123456789-0123456789-0123456789"
  = Ret "r56789-0123456789-0123456789-0123456789-0123456789".
Proof. reflexivity. Qed.

(** C10.  Both sanitizers return on every non-empty input, and on the
    empty string both panic with an index out of range at [s[0]]. *)
Theorem CheckName_CheckLabel_panic_iff_empty :
  (forall s : string, s <> "" -> len s < 2 ^ 53 ->
     returns (CheckName s) /\ returns (CheckLabel s)) /\
  byte_at "" 0 = Panic IndexOutOfRange /\
  CheckName "" = Panic IndexOutOfRange /\
  CheckLabel "" = Panic IndexOutOfRange.
Proof.
  split; [| repeat split].
  intros s Hne Hbound. split.
  - destruct (CheckName_suffix s Hne Hbound) as (? & c & t & _ & _ & _ & Hr).
    now exists (fix_name c t).
  - destruct (CheckLabel_suffix s Hne Hbound) as (? & c & t & _ & _ & _ & Hr).
    now exists (fix_label c t).
Qed.

Lemma CheckName_CheckLabel_panic_iff_empty_witness :
  "ray" <> "" /\ len "ray" < 2 ^ 53 /\
  returns (CheckName "ray") /\ returns (CheckLabel "ray").
Proof.
  split; [discriminate |]. split; [reflexivity |].
  apply (proj1 CheckName_CheckLabel_panic_iff_empty "ray"); [discriminate | reflexivity].
Defined.

(** ** Claims about the replica aggregators *)

Section Aggregation.
Variable field : rayv1alpha1.WorkerGroupSpec -> option Z.

Lemma sum_groups_all_set (groups : list rayv1alpha1.WorkerGroupSpec) (count : Z) :
  in_int32 count ->
  Forall (fun g => is_Some (field g)) groups ->
  sum_groups field count groups
  = Ret (wrap_int32 (count + field_total field groups)).
Proof.
  intros Hc Hall. revert count Hc.
  induction Hall as [| g groups [v Hv] _ IH]; intros count Hc.
  - cbn [sum_groups field_total foldr]. rewrite Z.add_0_r.
    now rewrite wrap_int32_small.
  - cbn [sum_groups field_total foldr]. rewrite Hv. cbn [deref exec_bind].
    change (default 0 (Some v)) with v.
    rewrite IH by apply wrap_int32_range. f_equal. unfold int32_add.
    fold (field_total field groups).
    rewrite wrap_int32_add_l. f_equal. lia.
Qed.

Lemma sum_groups_some_unset (groups : list rayv1alpha1.WorkerGroupSpec) (count : Z) :
  Exists (fun g => field g = None) groups ->
  sum_groups field count groups = Panic NilDereference.
Proof.
  intros Hex. revert count.
  induction Hex as [g groups Hg | g groups _ IH]; intros count.
  - cbn [sum_groups]. now rewrite Hg.
  - cbn [sum_groups]. destruct (field g); [apply IH | reflexivity].
Qed.

Lemma sum_groups_from_zero (groups : list rayv1alpha1.WorkerGroupSpec) :
  Forall (fun g => is_Some (field g)) groups ->
  sum_groups field 0 groups = Ret (wrap_int32 (field_total field groups)) /\
  (in_int32 (field_total field groups) ->
   sum_groups field 0 groups = Ret (field_total field groups)).
Proof.
  intros Hall.
  rewrite (sum_groups_all_set groups 0) by (assumption || (compute; split; discriminate)).
  rewrite Z.add_0_l.
  split; [reflexivity |]. intros Hr. now rewrite wrap_int32_small.
Qed.
End Aggregation.

(** C2, as amended.  When the respective field is set in every worker
    group, each aggregator returns the sum of that field over the groups
    in [int32] arithmetic, which is the exact sum whenever that sum is an
    [int32]. *)
Theorem Calculate_replicas_sum_when_set (cluster : rayv1alpha1.RayCluster) :
  let groups := rayv1alpha1.WorkerGroupSpecs (rayv1alpha1.Spec cluster) in
  (Forall (fun g => is_Some (rayv1alpha1.Replicas g)) groups ->
   CalculateDesiredReplicas cluster
     = Ret (wrap_int32 (field_total rayv1alpha1.Replicas groups)) /\
   (in_int32 (field_total rayv1alpha1.Replicas groups) ->
    CalculateDesiredReplicas cluster
      = Ret (field_total rayv1alpha1.Replicas groups))) /\
  (Forall (fun g => is_Some (rayv1alpha1.MinReplicas g)) groups ->
   CalculateMinReplicas cluster
     = Ret (wrap_int32 (field_total rayv1alpha1.MinReplicas groups)) /\
   (in_int32 (field_total rayv1alpha1.MinReplicas groups) ->
    CalculateMinReplicas cluster
      = Ret (field_total rayv1alpha1.MinReplicas groups))) /\
  (Forall (fun g => is_Some (rayv1alpha1.MaxReplicas g)) groups ->
   CalculateMaxReplicas cluster
     = Ret (wrap_int32 (field_total rayv1alpha1.MaxReplicas groups)) /\
   (in_int32 (field_total rayv1alpha1.MaxReplicas groups) ->
    CalculateMaxReplicas cluster
      = Ret (field_total rayv1alpha1.MaxReplicas groups))).
Proof.
  cbv zeta. unfold CalculateDesiredReplicas, CalculateMinReplicas, CalculateMaxReplicas.
  repeat apply conj; apply sum_groups_from_zero.
Qed.

Lemma Calculate_replicas_sum_when_set_witness :
  let cluster := cluster_all_set in
  let groups := rayv1alpha1.WorkerGroupSpecs (rayv1alpha1.Spec cluster) in
  Forall (fun g => is_Some (rayv1alpha1.Replicas g)) groups /\
  Forall (fun g => is_Some (rayv1alpha1.MinReplicas g)) groups /\
  Forall (fun g => is_Some (rayv1alpha1.MaxReplicas g)) groups /\
  in_int32 (field_total rayv1alpha1.Replicas groups) /\
  in_int32 (field_total rayv1alpha1.MinReplicas groups) /\
  in_int32 (field_total rayv1alpha1.MaxReplicas groups) /\
  CalculateDesiredReplicas cluster = Ret 5 /\
  CalculateMinReplicas cluster = Ret 1 /\
  CalculateMaxReplicas cluster = Ret 14.
Proof.
  cbv zeta.
  assert (Hset : forall f : rayv1alpha1.WorkerGroupSpec -> option Z,
             (forall g, g ∈ rayv1alpha1.WorkerGroupSpecs
                              (rayv1alpha1.Spec cluster_all_set) -> is_Some (f g)) ->
             Forall (fun g => is_Some (f g))
               (rayv1alpha1.WorkerGroupSpecs (rayv1alpha1.Spec cluster_all_set))).
  { intros f Hf. apply Forall_forall. exact Hf. }
  assert (H1 : Forall (fun g => is_Some (rayv1alpha1.Replicas g))
                 (rayv1alpha1.WorkerGroupSpecs (rayv1alpha1.Spec cluster_all_set))).
  { repeat constructor; eexists; reflexivity. }
  assert (H2 : Forall (fun g => is_Some (rayv1alpha1.MinReplicas g))
                 (rayv1alpha1.WorkerGroupSpecs (rayv1alpha1.Spec cluster_all_set))).
  { repeat constructor; eexists; reflexivity. }
  assert (H3 : Forall (fun g => is_Some (rayv1alpha1.MaxReplicas g))
                 (rayv1alpha1.WorkerGroupSpecs (rayv1alpha1.Spec cluster_all_set))).
  { repeat constructor; eexists; reflexivity. }
  assert (R : forall z : Z, (int32_min <=? z) && (z <=? int32_max) = true -> in_int32 z).
  { intros z Hz. apply andb_prop in Hz as [Ha Hb].
    apply Z.leb_le in Ha, Hb. split; assumption. }
  destruct (Calculate_replicas_sum_when_set cluster_all_set) as (D & Mi & Ma).
  repeat apply conj; try assumption; try (apply R; reflexivity).
  - apply (proj2 (D H1)). apply R. reflexivity.
  - apply (proj2 (Mi H2)). apply R. reflexivity.
  - apply (proj2 (Ma H3)). apply R. reflexivity.
Defined.

(** Dereferencing an unset field panics, whichever group it is in. *)
Theorem Calculate_replicas_panic_when_unset (cluster : rayv1alpha1.RayCluster) :
  let groups := rayv1alpha1.WorkerGroupSpecs (rayv1alpha1.Spec cluster) in
  (Exists (fun g => rayv1alpha1.Replicas g = None) groups ->
   CalculateDesiredReplicas cluster = Panic NilDereference) /\
  (Exists (fun g => rayv1alpha1.MinReplicas g = None) groups ->
   CalculateMinReplicas cluster = Panic NilDereference) /\
  (Exists (fun g => rayv1alpha1.MaxReplicas g = None) groups ->
   CalculateMaxReplicas cluster = Panic NilDereference).
Proof.
  cbv zeta. unfold CalculateDesiredReplicas, CalculateMinReplicas, CalculateMaxReplicas.
  repeat apply conj; apply sum_groups_some_unset.
Qed.

(** C2, as written, fails: in [cluster_some_unset] every field is unset in
    one group; the sums over the set values would be 5, 2 and 9, but none
    of the three aggregators returns. *)
Lemma Calculate_replicas_unset_panics :
  let groups := rayv1alpha1.WorkerGroupSpecs (rayv1alpha1.Spec cluster_some_unset) in
  field_total rayv1alpha1.Replicas groups = 5 /\
  field_total rayv1alpha1.MinReplicas groups = 2 /\
  field_total rayv1alpha1.MaxReplicas groups = 9 /\
  CalculateDesiredReplicas cluster_some_unset = Panic NilDereference /\
  CalculateMinReplicas cluster_some_unset = Panic NilDereference /\
  CalculateMaxReplicas cluster_some_unset = Panic NilDereference /\
  ~ returns (CalculateDesiredReplicas cluster_some_unset) /\
  ~ returns (CalculateMinReplicas cluster_some_unset) /\
  ~ returns (CalculateMaxReplicas cluster_some_unset).
Proof.
  cbv zeta. repeat apply conj; try reflexivity; intros [z Hz]; discriminate Hz.
Qed.

(** The wrap-around is real: two groups of 2^30 replicas each sum to a
    negative [int32]. *)
Example CalculateDesiredReplicas_wraps :
  CalculateDesiredReplicas
    {| rayv1alpha1.ObjectMeta := sample_meta;
       rayv1alpha1.Spec := {| rayv1alpha1.WorkerGroupSpecs :=
         [ group (Some (2 ^ 30)) (Some 0) (Some 0);
           group (Some (2 ^ 30)) (Some 0) (Some 0) ] |} |}
  = Ret (- 2 ^ 31).
Proof. reflexivity. Qed.

(** ** Claims about [CalculateAvailableReplicas] *)

Lemma pending_or_running_spec (pod : corev1.Pod) :
  pending_or_running pod = true <->
  corev1.Phase (corev1.Status pod) = corev1.PodPending \/
  corev1.Phase (corev1.Status pod) = corev1.PodRunning.
Proof.
  unfold pending_or_running. rewrite orb_true_iff, !String.eqb_eq. reflexivity.
Qed.

Lemma count_available_from (pods : list corev1.Pod) (count : Z) :
  in_int32 count ->
  count_available count pods
  = wrap_int32 (count + Z.of_nat (length (viable_pods pods))).
Proof.
  revert count. induction pods as [| pod pods IH]; intros count Hc.
  - cbn [count_available viable_pods List.filter length].
    rewrite Z.add_0_r. now rewrite wrap_int32_small.
  - cbn [count_available viable_pods List.filter].
    destruct (pending_or_running pod).
    + rewrite IH by apply wrap_int32_range. unfold int32_add.
      rewrite wrap_int32_add_l. fold (viable_pods pods).
      cbn [length]. f_equal. lia.
    + now rewrite IH.
Qed.

Lemma viable_pods_idempotent (pods : list corev1.Pod) :
  viable_pods (viable_pods pods) = viable_pods pods.
Proof.
  unfold viable_pods. induction pods as [| p l IH]; [reflexivity |].
  cbn [List.filter]. destruct (pending_or_running p) eqn:Hp.
  - cbn [List.filter]. rewrite Hp. now f_equal.
  - exact IH.
Qed.

(** C8.  [CalculateAvailableReplicas] returns the number of pods of the
    list whose phase is Pending or Running, as an [int32] (exactly that
    number whenever it is at most 2^31 - 1); a pod in any other phase
    does not change the count. *)
Theorem CalculateAvailableReplicas_counts_viable (pods : corev1.PodList) :
  (forall pod : corev1.Pod,
     In pod (viable_pods (corev1.Items pods)) <->
     In pod (corev1.Items pods) /\
     (corev1.Phase (corev1.Status pod) = corev1.PodPending \/
      corev1.Phase (corev1.Status pod) = corev1.PodRunning)) /\
  CalculateAvailableReplicas pods
    = wrap_int32 (Z.of_nat (length (viable_pods (corev1.Items pods)))) /\
  (Z.of_nat (length (viable_pods (corev1.Items pods))) <= int32_max ->
   CalculateAvailableReplicas pods
     = Z.of_nat (length (viable_pods (corev1.Items pods)))) /\
  CalculateAvailableReplicas pods
    = CalculateAvailableReplicas {| corev1.Items := viable_pods (corev1.Items pods) |}.
Proof.
  assert (H0 : in_int32 0) by (compute; split; discriminate).
  repeat apply conj.
  - intros pod. unfold viable_pods. rewrite filter_In, pending_or_running_spec.
    reflexivity.
  - unfold CalculateAvailableReplicas. now rewrite count_available_from.
  - intros Hle. unfold CalculateAvailableReplicas.
    rewrite count_available_from by assumption.
    apply wrap_int32_small. unfold in_int32, int32_min, int32_max in *. lia.
  - unfold CalculateAvailableReplicas. cbn [corev1.Items].
    rewrite !count_available_from by assumption.
    now rewrite viable_pods_idempotent.
Qed.

Lemma CalculateAvailableReplicas_counts_viable_witness :
  Z.of_nat (length (viable_pods (corev1.Items pods_3_running_1_failed_1_pending)))
    <= int32_max /\
  CalculateAvailableReplicas pods_3_running_1_failed_1_pending
    = Z.of_nat (length (viable_pods (corev1.Items pods_3_running_1_failed_1_pending))).
Proof.
  assert (H : Z.of_nat (length (viable_pods
                 (corev1.Items pods_3_running_1_failed_1_pending))) <= int32_max)
    by (intros Hgt; discriminate Hgt).
  split; [exact H |].
  exact (proj1 (proj2 (proj2
           (CalculateAvailableReplicas_counts_viable
              pods_3_running_1_failed_1_pending))) H).
Defined.

Example failed_succeeded_unknown_not_counted :
  pending_or_running (pod_in_phase corev1.PodFailed) = false /\
  pending_or_running (pod_in_phase corev1.PodSucceeded) = false /\
  pending_or_running (pod_in_phase corev1.PodUnknown) = false /\
  CalculateAvailableReplicas
    {| corev1.Items := [ pod_in_phase corev1.PodFailed;
                         pod_in_phase corev1.PodSucceeded;
                         pod_in_phase corev1.PodUnknown ] |} = 0.
Proof. repeat split. Qed.

(** The example of the specification: 3 running, 1 failed and 1 pending
    pod count as 4. *)
Example CalculateAvailableReplicas_spec_example :
  CalculateAvailableReplicas pods_3_running_1_failed_1_pending = 4.
Proof. reflexivity. Qed.

(** ** The pod/template comparator *)

Lemma existsb_ext_in {A : Type} (f g : A -> bool) (l : list A) :
  (forall x, x ∈ l -> f x = g x) -> existsb f l = existsb g l.
Proof.
  induction l as [| a l IH]; intros H; [reflexivity |].
  cbn [existsb]. rewrite (H a) by apply list_elem_of_here.
  f_equal. apply IH. intros x Hx. apply H. now apply list_elem_of_further.
Qed.

Lemma existsb_false_in {A : Type} (f : A -> bool) (l : list A) :
  (forall x, x ∈ l -> f x = false) -> existsb f l = false.
Proof.
  induction l as [| a l IH]; intros H; [reflexivity |].
  cbn [existsb]. rewrite (H a) by apply list_elem_of_here.
  apply IH. intros x Hx. apply H. now apply list_elem_of_further.
Qed.

(** *** The template loop, given what the map resolves to *)

(** With pairwise distinct template names that are exactly the keys of
    [cmap], the template loop returns [true] if and only if some template
    container differs from the container its name resolves to. *)
Lemma match_template_exists (h : gmap nat corev1.Container)
    (tmpl : list corev1.Container) (cm : gmap string nat) :
  NoDup (corev1.Name <$> tmpl) ->
  dom cm = list_to_set (corev1.Name <$> tmpl) ->
  match_template h cm tmpl
  = existsb (fun c1 => match cm !! corev1.Name c1 with
                       | Some addr => containers_differ c1 (load h addr)
                       | None => true
                       end) tmpl.
Proof.
  revert cm. induction tmpl as [| c1 rest IH]; intros cm Hnd Hdom.
  - cbn in Hdom. apply dom_empty_inv_L in Hdom as ->.
    cbn [match_template existsb]. now rewrite map_size_empty.
  - rewrite fmap_cons in Hnd, Hdom. apply NoDup_cons in Hnd as [Hnotin Hnd].
    cbn [list_to_set foldr] in Hdom.
    assert (Hin : corev1.Name c1 ∈ dom cm) by (rewrite Hdom; set_solver).
    apply elem_of_dom in Hin as [addr Haddr].
    cbn [match_template existsb]. rewrite Haddr.
    destruct (containers_differ c1 (load h addr)); [reflexivity |].
    cbn [orb]. rewrite IH.
    + apply existsb_ext_in. intros c Hc.
      rewrite lookup_delete_ne; [reflexivity |].
      intros Heq. apply Hnotin. rewrite Heq. apply list_elem_of_fmap. eauto.
    + assumption.
    + rewrite dom_delete_L, Hdom.
      assert (Hn : corev1.Name c1 ∉ (list_to_set (corev1.Name <$> rest) : gset string))
        by (rewrite not_elem_of_list_to_set; exact Hnotin).
      set_solver.
Qed.

(** *** What [cmap] holds after the first loop *)

Lemma build_cmap_dom (scope : loopvar_scope) (cs : list corev1.Container)
    (i : nat) (st : cmap_state) :
  dom (cmap (build_cmap scope i cs st))
  = list_to_set (corev1.Name <$> cs) ∪ dom (cmap st).
Proof.
  revert i st. induction cs as [| c cs IH]; intros i st.
  - cbn. set_solver.
  - cbn [build_cmap]. rewrite IH. cbn [cmap]. rewrite dom_insert_L, fmap_cons.
    cbn [list_to_set foldr]. set_solver.
Qed.

(** One variable for the whole loop: every key of [cmap] holds the
    address of that variable, whose final content is the last container
    of the pod. *)
Lemma build_cmap_PerLoop (cs : list corev1.Container) (i : nat) (st : cmap_state) :
  (forall name addr, cmap st !! name = Some addr -> addr = O) ->
  (forall name addr,
     cmap (build_cmap PerLoop i cs st) !! name = Some addr -> addr = O) /\
  heap (build_cmap PerLoop i cs st) !! O
  = match last cs with
    | Some c => Some c
    | None => heap st !! O
    end.
Proof.
  revert i st. induction cs as [| c cs IH]; intros i st Hzero.
  - cbn. auto.
  - cbn [build_cmap].
    destruct (IH (S i) {| heap := <[O := c]> (heap st);
                          cmap := <[corev1.Name c := O]> (cmap st) |}) as [Hz Hh].
    { cbn [cmap]. intros name addr Hl.
      apply lookup_insert_Some in Hl as [[_ <-] | [_ Hl]]; [reflexivity | eauto]. }
    split; [exact Hz |]. rewrite Hh. cbn [heap]. clear.
    rewrite last_cons. destruct (last cs); [reflexivity | apply lookup_insert_eq].
Qed.

(** A fresh variable at each iteration: a container with a name that
    occurs once is found under its name. *)
Lemma build_cmap_PerIteration (cs : list corev1.Container) (i : nat) (st : cmap_state) :
  NoDup (corev1.Name <$> cs) ->
  let st' := build_cmap PerIteration i cs st in
  (forall name, name ∉ (corev1.Name <$> cs) -> cmap st' !! name = cmap st !! name) /\
  (forall addr, (addr < i)%nat -> heap st' !! addr = heap st !! addr) /\
  (forall c, c ∈ cs ->
     exists addr, cmap st' !! corev1.Name c = Some addr /\ heap st' !! addr = Some c).
Proof.
  cbv zeta. revert i st. induction cs as [| c cs IH]; intros i st Hnd.
  - cbn. repeat split; auto. intros c Hc. inversion Hc.
  - rewrite fmap_cons in Hnd. apply NoDup_cons in Hnd as [Hnotin Hnd].
    cbn [build_cmap].
    destruct (IH (S i) {| heap := <[i := c]> (heap st);
                          cmap := <[corev1.Name c := i]> (cmap st) |} Hnd)
      as (Hkeep & Hlow & Hfind).
    cbn [heap cmap] in Hkeep, Hlow. repeat split.
    + intros name Hname. rewrite fmap_cons in Hname.
      apply not_elem_of_cons in Hname as [Hne Hname].
      rewrite Hkeep by assumption. now rewrite lookup_insert_ne.
    + intros addr Haddr. rewrite Hlow by lia. rewrite lookup_insert_ne; [reflexivity | lia].
    + intros c' Hc'. apply elem_of_cons in Hc' as [-> | Hc'].
      * exists i. rewrite Hkeep by assumption. rewrite Hlow by lia.
        now rewrite !lookup_insert_eq.
      * now apply Hfind.
Qed.

(** *** Agreement of a matched pair *)

Lemma resources_agree_size (r1 r2 : gmap string Quantity) :
  resources_agree r1 r2 -> size r1 = size r2.
Proof.
  intros Hag. rewrite <- !size_dom. f_equal. apply set_eq. intros name.
  rewrite !elem_of_dom. specialize (Hag name).
  destruct (r1 !! name), (r2 !! name); try contradiction;
    split; intros [? ?]; try discriminate; eauto.
Qed.

Lemma resources_agree_not_differs (r1 r2 : gmap string Quantity) :
  resources_agree r1 r2 -> resource_list_differs r1 r2 = false.
Proof.
  intros Hag. unfold resource_list_differs. apply existsb_false_in.
  intros [name q1] Hin. apply elem_of_map_to_list in Hin. cbn [fst snd].
  specialize (Hag name). rewrite Hin in Hag.
  destruct (r2 !! name) as [q2 |]; [| contradiction].
  unfold Quantity_Cmp. apply Qeq_alt in Hag. now rewrite Hag.
Qed.

Lemma containers_agree_not_differ (c1 c2 : corev1.Container) :
  containers_agree c1 c2 -> containers_differ c1 c2 = false.
Proof.
  intros (_ & Himg & Hreq & Hlim). unfold containers_differ.
  rewrite Himg, String.eqb_refl. cbn [negb].
  rewrite (resources_agree_size _ _ Hreq), (resources_agree_size _ _ Hlim).
  rewrite !Nat.eqb_refl. cbn [negb orb zip zip_with existsb fst snd].
  now rewrite !resources_agree_not_differs.
Qed.

Lemma image_differs_differ (c1 c2 : corev1.Container) :
  corev1.Image c1 <> corev1.Image c2 -> containers_differ c1 c2 = true.
Proof.
  intros Hne. unfold containers_differ.
  destruct (String.eqb_spec (corev1.Image c1) (corev1.Image c2)); [contradiction | reflexivity].
Qed.

(** *** The function on a pod that runs and is not being deleted *)

Lemma PodNotMatchingTemplate_under_running (scope : loopvar_scope)
    (pod : corev1.Pod) (template : corev1.PodTemplateSpec) :
  running_not_deleted pod ->
  NoDup (corev1.Name <$> observed pod) ->
  corev1.Name <$> desired template ≡ₚ corev1.Name <$> observed pod ->
  let st := build_cmap scope 0 (observed pod) empty_cmap_state in
  PodNotMatchingTemplate_under scope pod template
  = existsb (fun c1 => match cmap st !! corev1.Name c1 with
                       | Some addr => containers_differ c1 (load (heap st) addr)
                       | None => true
                       end) (desired template).
Proof.
  intros [Hphase Hdel] Hnd Hperm. cbv zeta.
  unfold PodNotMatchingTemplate_under. fold (observed pod) (desired template).
  rewrite Hphase, Hdel. rewrite String.eqb_refl, bool_decide_eq_true_2 by reflexivity.
  cbn [andb].
  assert (Hlen : length (desired template) = length (observed pod)).
  { apply Permutation_length in Hperm. now rewrite !length_fmap in Hperm. }
  rewrite Hlen, Nat.eqb_refl. cbn [negb].
  apply match_template_exists.
  - now rewrite Hperm.
  - rewrite build_cmap_dom. cbn [empty_cmap_state cmap]. rewrite dom_empty_L.
    rewrite (list_to_set_perm_L _ _ Hperm). set_solver.
Qed.

Lemma PodNotMatchingTemplate_PerLoop_last
    (pod : corev1.Pod) (template : corev1.PodTemplateSpec) (c_last : corev1.Container) :
  running_not_deleted pod ->
  NoDup (corev1.Name <$> observed pod) ->
  corev1.Name <$> desired template ≡ₚ corev1.Name <$> observed pod ->
  last (observed pod) = Some c_last ->
  PodNotMatchingTemplate pod template
  = existsb (fun c1 => containers_differ c1 c_last) (desired template).
Proof.
  intros Hrun Hnd Hperm Hlast. unfold PodNotMatchingTemplate.
  rewrite PodNotMatchingTemplate_under_running by assumption. cbv zeta.
  destruct (build_cmap_PerLoop (observed pod) 0 empty_cmap_state) as [Hzero Hheap].
  { cbn. intros name addr H. rewrite lookup_empty in H. discriminate H. }
  rewrite Hlast in Hheap.
  apply existsb_ext_in. intros c1 Hc1.
  assert (Hin : corev1.Name c1 ∈ dom (cmap (build_cmap PerLoop 0 (observed pod)
                                              empty_cmap_state))).
  { rewrite build_cmap_dom. apply elem_of_union_l, elem_of_list_to_set.
    rewrite <- Hperm. apply list_elem_of_fmap. eauto. }
  apply elem_of_dom in Hin as [addr Haddr]. rewrite Haddr.
  rewrite (Hzero _ _ Haddr). unfold load. now rewrite Hheap.
Qed.

(** Under the scoping rule of the package's Go version, each template
    container is compared with the last container of the pod, whatever
    its name. *)
Theorem PodNotMatchingTemplate_compares_with_last
    (pod : corev1.Pod) (template : corev1.PodTemplateSpec) (c_last : corev1.Container) :
  running_not_deleted pod ->
  NoDup (corev1.Name <$> observed pod) ->
  corev1.Name <$> desired template ≡ₚ corev1.Name <$> observed pod ->
  last (observed pod) = Some c_last ->
  PodNotMatchingTemplate pod template
  = existsb (fun c1 => containers_differ c1 c_last) (desired template).
Proof. apply PodNotMatchingTemplate_PerLoop_last. Qed.

(** With a fresh loop variable at each iteration the function does match
    by name: a reordering of agreeing containers is no drift ... *)
Theorem PodNotMatchingTemplate_under_PerIteration_reordering
    (pod : corev1.Pod) (template : corev1.PodTemplateSpec)
    (matched : list corev1.Container) :
  running_not_deleted pod ->
  NoDup (corev1.Name <$> observed pod) ->
  matched ≡ₚ observed pod ->
  Forall2 containers_agree (desired template) matched ->
  PodNotMatchingTemplate_under PerIteration pod template = false.
Proof.
  intros Hrun Hnd Hperm Hag.
  assert (Hnames : corev1.Name <$> desired template ≡ₚ corev1.Name <$> observed pod).
  { rewrite <- Hperm. clear -Hag.
    induction Hag as [| c1 c2 l1 l2 (Hn & _) _ IH]; [reflexivity |].
    rewrite !fmap_cons, Hn. now apply Permutation_skip. }
  rewrite PodNotMatchingTemplate_under_running by assumption. cbv zeta.
  destruct (build_cmap_PerIteration (observed pod) 0 empty_cmap_state Hnd)
    as (_ & _ & Hfind).
  apply existsb_false_in. intros c1 Hc1.
  apply list_elem_of_lookup in Hc1 as [i Hi].
  destruct (Forall2_lookup_l _ _ _ _ _ Hag Hi) as (c2 & Hc2 & Hagree).
  assert (Hin : c2 ∈ observed pod).
  { rewrite <- Hperm. apply list_elem_of_lookup. eauto. }
  destruct (Hfind c2 Hin) as (addr & Hcm & Hh).
  destruct Hagree as (Hn & Hrest). rewrite Hn, Hcm. unfold load. rewrite Hh.
  apply containers_agree_not_differ. repeat split; tauto.
Qed.

(** ... and a same-named pair with different images is drift. *)
Theorem PodNotMatchingTemplate_under_PerIteration_image
    (pod : corev1.Pod) (template : corev1.PodTemplateSpec)
    (c1 c2 : corev1.Container) :
  running_not_deleted pod ->
  NoDup (corev1.Name <$> observed pod) ->
  corev1.Name <$> desired template ≡ₚ corev1.Name <$> observed pod ->
  c1 ∈ desired template -> c2 ∈ observed pod ->
  corev1.Name c1 = corev1.Name c2 ->
  corev1.Image c1 <> corev1.Image c2 ->
  PodNotMatchingTemplate_under PerIteration pod template = true.
Proof.
  intros Hrun Hnd Hperm Hc1 Hc2 Hn Himg.
  rewrite PodNotMatchingTemplate_under_running by assumption. cbv zeta.
  destruct (build_cmap_PerIteration (observed pod) 0 empty_cmap_state Hnd)
    as (_ & _ & Hfind).
  apply existsb_exists. exists c1. split; [now apply list_elem_of_In |].
  destruct (Hfind c2 Hc2) as (addr & Hcm & Hh).
  rewrite Hn, Hcm. unfold load. rewrite Hh. now apply image_differs_differ.
Qed.

(** For a pod with a single container the last container is the only
    one, and the function matches it by name as intended. *)
Corollary PodNotMatchingTemplate_single_container
    (pod : corev1.Pod) (template : corev1.PodTemplateSpec)
    (c1 c2 : corev1.Container) :
  running_not_deleted pod ->
  observed pod = [c2] -> desired template = [c1] ->
  corev1.Name c1 = corev1.Name c2 ->
  (containers_agree c1 c2 -> PodNotMatchingTemplate pod template = false) /\
  (corev1.Image c1 <> corev1.Image c2 -> PodNotMatchingTemplate pod template = true).
Proof.
  intros Hrun Ho Hd Hn.
  assert (Heq : PodNotMatchingTemplate pod template = containers_differ c1 c2 || false).
  { rewrite (PodNotMatchingTemplate_PerLoop_last pod template c2); try assumption.
    - now rewrite Hd.
    - rewrite Ho. cbn. apply NoDup_singleton.
    - rewrite Ho, Hd. cbn. now rewrite Hn.
    - now rewrite Ho. }
  rewrite Heq, orb_false_r. split.
  - apply containers_agree_not_differ.
  - apply image_differs_differ.
Qed.

Lemma resources_agree_refl (r : gmap string Quantity) : resources_agree r r.
Proof. intros name. destruct (r !! name); [reflexivity | exact I]. Qed.

Lemma containers_agree_refl (c : corev1.Container) : containers_agree c c.
Proof. repeat split; apply resources_agree_refl. Qed.

(** C3.  The claim fails on the code.  [pod_head_sidecar] runs, is not
    being deleted, and its containers are those of
    [template_sidecar_head] in the other order, pair by pair identical:
    the function reports drift, because every key of [cmap] points at the
    one loop variable, which holds the last container of the pod.  With a
    variable per iteration the same call reports no drift.  In the other
    direction, [pod_worker_old] runs an image for [ray-worker] that
    differs from the one of [template_worker_new], and the function
    reports no drift. *)
Theorem PodNotMatchingTemplate_loop_variable_aliasing :
  (running_not_deleted pod_head_sidecar /\
   NoDup (corev1.Name <$> observed pod_head_sidecar) /\
   [ray_head; sidecar] ≡ₚ observed pod_head_sidecar /\
   Forall2 containers_agree (desired template_sidecar_head) [sidecar; ray_head] /\
   [sidecar; ray_head] ≡ₚ observed pod_head_sidecar /\
   PodNotMatchingTemplate pod_head_sidecar template_sidecar_head = true /\
   PodNotMatchingTemplate_under PerIteration pod_head_sidecar template_sidecar_head
     = false) /\
  (running_not_deleted pod_worker_old /\
   worker_new ∈ desired template_worker_new /\
   worker_old ∈ observed pod_worker_old /\
   corev1.Name worker_new = corev1.Name worker_old /\
   corev1.Image worker_new <> corev1.Image worker_old /\
   PodNotMatchingTemplate pod_worker_old template_worker_new = false /\
   PodNotMatchingTemplate_under PerIteration pod_worker_old template_worker_new
     = true).
Proof.
  split.
  - repeat apply conj; try reflexivity.
    + cbn. repeat constructor; set_solver.
    + repeat constructor; apply containers_agree_refl.
    + apply Permutation_swap.
  - repeat apply conj; try reflexivity.
    + cbn. set_solver.
    + cbn. set_solver.
    + discriminate.
Qed.

(** ** The serve-config translator *)

Section ConfigTranslator.
Variable yaml_Unmarshal : string -> gmap string Any -> gmap string Any * option error.

(** Every index the loop writes is inside the slice, and the loop turns
    the slots from [i] on into the converted configurations. *)
Lemma convert_loop_spec (specs : list rayv1alpha1.ServeConfigSpec.t)
    (i : nat) (out : list ServeConfigSpec.t) :
  length out = (i + length specs)%nat ->
  convert_loop yaml_Unmarshal i specs out
  = (take i out ++ (convert_config yaml_Unmarshal <$> specs))%list.
Proof.
  revert i out. induction specs as [| config rest IH]; intros i out Hlen.
  - cbn [length] in Hlen. cbn [convert_loop fmap list_fmap].
    rewrite app_nil_r, take_ge; [reflexivity | lia].
  - cbn [length] in Hlen. cbn [convert_loop].
    rewrite IH by (rewrite length_insert; lia).
    rewrite fmap_cons.
    assert (Hi : (i < length out)%nat) by lia.
    rewrite (take_S_r (<[i:=convert_config yaml_Unmarshal config]> out) i
               (convert_config yaml_Unmarshal config))
      by (now apply list_lookup_insert_eq).
    rewrite take_insert_ge by lia.
    now rewrite <- app_assoc.
Qed.

Lemma ConvertServeConfig_map (specs : list rayv1alpha1.ServeConfigSpec.t) :
  ConvertServeConfig yaml_Unmarshal specs = convert_config yaml_Unmarshal <$> specs.
Proof.
  unfold ConvertServeConfig. cbv zeta.
  rewrite convert_loop_spec by (now rewrite length_replicate).
  reflexivity.
Qed.
End ConfigTranslator.

(** C9.  [ConvertServeConfig] returns as many wire objects as it is given
    configurations, the wire object at index [i] is the conversion of
    the configuration at index [i], and it carries that configuration's
    [Name]. *)
Theorem ConvertServeConfig_length_order_name
    (yaml_Unmarshal : string -> gmap string Any -> gmap string Any * option error)
    (specs : list rayv1alpha1.ServeConfigSpec.t) :
  length (ConvertServeConfig yaml_Unmarshal specs) = length specs /\
  forall (i : nat) (config : rayv1alpha1.ServeConfigSpec.t),
    specs !! i = Some config ->
    exists wire : ServeConfigSpec.t,
      ConvertServeConfig yaml_Unmarshal specs !! i = Some wire /\
      wire = convert_config yaml_Unmarshal config /\
      ServeConfigSpec.Name wire = rayv1alpha1.ServeConfigSpec.Name config.
Proof.
  rewrite ConvertServeConfig_map. split.
  - apply length_fmap.
  - intros i config Hi. exists (convert_config yaml_Unmarshal config).
    rewrite list_lookup_fmap, Hi. repeat split.
Qed.

Lemma ConvertServeConfig_length_order_name_witness :
  [serve_config_sample; serve_config_other] !! 1%nat = Some serve_config_other /\
  exists wire : ServeConfigSpec.t,
    ConvertServeConfig yaml_rejects [serve_config_sample; serve_config_other] !! 1%nat
      = Some wire /\
    wire = convert_config yaml_rejects serve_config_other /\
    ServeConfigSpec.Name wire = "deep".
Proof.
  split; [reflexivity |].
  exact (proj2 (ConvertServeConfig_length_order_name yaml_rejects
                  [serve_config_sample; serve_config_other])
               1%nat serve_config_other eq_refl).
Defined.

(** What the translator does with the scalar fields of each
    configuration: all are copied to the field of the same name, except
    that the wire field [HealthCheckTimeoutS] receives the
    configuration's [GracefulShutdownTimeoutS]. *)
Lemma ConvertServeConfig_scalar_fields
    (yaml_Unmarshal : string -> gmap string Any -> gmap string Any * option error)
    (specs : list rayv1alpha1.ServeConfigSpec.t)
    (i : nat) (config : rayv1alpha1.ServeConfigSpec.t) :
  specs !! i = Some config ->
  exists wire : ServeConfigSpec.t,
    ConvertServeConfig yaml_Unmarshal specs !! i = Some wire /\
    ServeConfigSpec.Name wire = rayv1alpha1.ServeConfigSpec.Name config /\
    ServeConfigSpec.NumReplicas wire = rayv1alpha1.ServeConfigSpec.NumReplicas config /\
    ServeConfigSpec.RoutePrefix wire = rayv1alpha1.ServeConfigSpec.RoutePrefix config /\
    ServeConfigSpec.MaxConcurrentQueries wire
      = rayv1alpha1.ServeConfigSpec.MaxConcurrentQueries config /\
    ServeConfigSpec.GracefulShutdownWaitLoopS wire
      = rayv1alpha1.ServeConfigSpec.GracefulShutdownWaitLoopS config /\
    ServeConfigSpec.GracefulShutdownTimeoutS wire
      = rayv1alpha1.ServeConfigSpec.GracefulShutdownTimeoutS config /\
    ServeConfigSpec.HealthCheckPeriodS wire
      = rayv1alpha1.ServeConfigSpec.HealthCheckPeriodS config /\
    ServeConfigSpec.HealthCheckTimeoutS wire
      = rayv1alpha1.ServeConfigSpec.GracefulShutdownTimeoutS config /\
    RayActorOptionSpec.NumCpus (ServeConfigSpec.RayActorOptions wire)
      = rayv1alpha1.RayActorOptionSpec.NumCpus
          (rayv1alpha1.ServeConfigSpec.RayActorOptions config) /\
    RayActorOptionSpec.NumGpus (ServeConfigSpec.RayActorOptions wire)
      = rayv1alpha1.RayActorOptionSpec.NumGpus
          (rayv1alpha1.ServeConfigSpec.RayActorOptions config) /\
    RayActorOptionSpec.Memory (ServeConfigSpec.RayActorOptions wire)
      = rayv1alpha1.RayActorOptionSpec.Memory
          (rayv1alpha1.ServeConfigSpec.RayActorOptions config) /\
    RayActorOptionSpec.ObjectStoreMemory (ServeConfigSpec.RayActorOptions wire)
      = rayv1alpha1.RayActorOptionSpec.ObjectStoreMemory
          (rayv1alpha1.ServeConfigSpec.RayActorOptions config) /\
    RayActorOptionSpec.AcceleratorType (ServeConfigSpec.RayActorOptions wire)
      = rayv1alpha1.RayActorOptionSpec.AcceleratorType
          (rayv1alpha1.ServeConfigSpec.RayActorOptions config).
Proof.
  intros Hi. exists (convert_config yaml_Unmarshal config).
  rewrite ConvertServeConfig_map, list_lookup_fmap, Hi. repeat split.
Qed.

(** C1.  The claim fails on the code at [serve_config_sample], whatever
    the YAML decoder does: the configuration asks for a health-check
    timeout of 30 s and a graceful-shutdown timeout of 20 s, and the wire
    object carries 20 in [HealthCheckTimeoutS]. *)
Theorem ConvertServeConfig_health_check_timeout_from_shutdown_timeout
    (yaml_Unmarshal : string -> gmap string Any -> gmap string Any * option error) :
  exists wire : ServeConfigSpec.t,
    ConvertServeConfig yaml_Unmarshal [serve_config_sample] = [wire] /\
    rayv1alpha1.ServeConfigSpec.HealthCheckTimeoutS serve_config_sample = Some 30 /\
    rayv1alpha1.ServeConfigSpec.GracefulShutdownTimeoutS serve_config_sample = Some 20 /\
    ServeConfigSpec.HealthCheckTimeoutS wire = Some 20 /\
    ServeConfigSpec.HealthCheckTimeoutS wire
      <> rayv1alpha1.ServeConfigSpec.HealthCheckTimeoutS serve_config_sample.
Proof.
  exists (convert_config yaml_Unmarshal serve_config_sample).
  repeat split. discriminate.
Qed.

(** ** The dashboard client *)

(** [UpdateDeployments] returns an error exactly when encoding the body,
    building the request or the round trip returns one, and then it is
    that error. *)
Lemma UpdateDeployments_error_sources
    (yaml_Unmarshal : string -> gmap string Any -> gmap string Any * option error)
    (json_Marshal : ServingClusterDeployments.t -> string + error)
    (http_NewRequest : string -> string -> option string -> http.Request + error)
    (client_Do : http.Client -> http.Request -> http.Response + error)
    (r : RayDashboardClient) (specs : rayv1alpha1.ServeDeploymentGraphSpec.t)
    (err : error) :
  UpdateDeployments yaml_Unmarshal json_Marshal http_NewRequest client_Do r specs
    = Some err <->
  json_Marshal (servingClusterDeployments_of yaml_Unmarshal specs) = inr err \/
  (exists deploymentJson,
     json_Marshal (servingClusterDeployments_of yaml_Unmarshal specs)
       = inl deploymentJson /\
     http_NewRequest "PUT" (dashboardURL r +:+ DeployPath) (Some deploymentJson)
       = inr err) \/
  (exists deploymentJson req,
     json_Marshal (servingClusterDeployments_of yaml_Unmarshal specs)
       = inl deploymentJson /\
     http_NewRequest "PUT" (dashboardURL r +:+ DeployPath) (Some deploymentJson)
       = inl req /\
     client_Do (client r) (http.Header_Set req "Content-Type" "application/json")
       = inr err).
Proof.
  unfold UpdateDeployments. cbv zeta.
  destruct (json_Marshal _) as [body | e1] eqn:Hm.
  - destruct (http_NewRequest _ _ _) as [req | e2] eqn:Hn.
    + destruct (client_Do _ _) as [resp | e3] eqn:Hdo.
      * split; [discriminate |].
        intros [H | [(b & Hb & Hq) | (b & q & Hb & Hq & Hd)]]; congruence.
      * split.
        -- intros [= <-]. right. right. eauto.
        -- intros [H | [(b & Hb & Hq) | (b & q & Hb & Hq & Hd)]]; congruence.
    + split.
      * intros [= <-]. right. left. eauto.
      * intros [H | [(b & Hb & Hq) | (b & q & Hb & Hq & Hd)]]; congruence.
  - split.
    + intros [= <-]. now left.
    + intros [H | [(b & Hb & Hq) | (b & q & Hb & Hq & Hd)]]; congruence.
Qed.

(** C4.  Once the body is encoded and the request built, any response
    of the round trip, with any status code, makes [UpdateDeployments]
    return [nil]; the status code is not read. *)
Theorem UpdateDeployments_ignores_status_code
    (yaml_Unmarshal : string -> gmap string Any -> gmap string Any * option error)
    (json_Marshal : ServingClusterDeployments.t -> string + error)
    (http_NewRequest : string -> string -> option string -> http.Request + error)
    (client_Do : http.Client -> http.Request -> http.Response + error)
    (r : RayDashboardClient) (specs : rayv1alpha1.ServeDeploymentGraphSpec.t)
    (deploymentJson : string) (req : http.Request) (resp : http.Response) :
  json_Marshal (servingClusterDeployments_of yaml_Unmarshal specs) = inl deploymentJson ->
  http_NewRequest "PUT" (dashboardURL r +:+ DeployPath) (Some deploymentJson) = inl req ->
  client_Do (client r) (http.Header_Set req "Content-Type" "application/json")
    = inl resp ->
  UpdateDeployments yaml_Unmarshal json_Marshal http_NewRequest client_Do r specs = None.
Proof.
  intros Hm Hq Hd. unfold UpdateDeployments. cbv zeta.
  now rewrite Hm, Hq, Hd.
Qed.

Lemma UpdateDeployments_ignores_status_code_witness :
  marshal_fixed (servingClusterDeployments_of yaml_rejects graph_sample) = inl "{}" /\
  http.StatusCode
    {| http.StatusCode := 500; http.ResponseBody := "Internal Server Error" |} = 500 /\
  UpdateDeployments yaml_rejects marshal_fixed new_request server_500
    dashboard_sample graph_sample = None.
Proof.
  split; [reflexivity |]. split; [reflexivity |].
  exact (UpdateDeployments_ignores_status_code
           yaml_rejects marshal_fixed new_request server_500
           dashboard_sample graph_sample "{}"
           {| http.Method := "PUT";
              http.URL := dashboardURL dashboard_sample +:+ DeployPath;
              http.Header := ∅; http.Body := Some "{}" |}
           {| http.StatusCode := 500; http.ResponseBody := "Internal Server Error" |}
           eq_refl eq_refl eq_refl).
Defined.

(** ** The JSON comparator *)

(** [CompareJsonStruct] answers [true] only when all four library calls
    succeed and the decoded trees are deeply equal. *)
Lemma CompareJsonStruct_true_iff
    (GoValue : Type)
    (json_Marshal : GoValue -> string + error)
    (json_Unmarshal : string -> Any + error)
    (reflect_DeepEqual : Any -> Any -> bool)
    (objA objB : GoValue) :
  CompareJsonStruct GoValue json_Marshal json_Unmarshal reflect_DeepEqual objA objB = true
  <->
  exists a b v1 v2,
    json_Marshal objA = inl a /\ json_Marshal objB = inl b /\
    json_Unmarshal a = inl v1 /\ json_Unmarshal b = inl v2 /\
    reflect_DeepEqual v1 v2 = true.
Proof.
  unfold CompareJsonStruct. split.
  - destruct (json_Marshal objA) as [a |]; [| discriminate].
    destruct (json_Marshal objB) as [b |]; [| discriminate].
    destruct (json_Unmarshal a) as [v1 |] eqn:Ha; [| discriminate].
    destruct (json_Unmarshal b) as [v2 |] eqn:Hb; [| discriminate].
    intros H. exists a, b, v1, v2. auto.
  - intros (a & b & v1 & v2 & -> & -> & -> & -> & H). exact H.
Qed.

(** C7.  [CompareJsonStruct] always yields a boolean, and it is [false]
    whenever encoding either argument fails or decoding either encoded
    form fails. *)
Theorem CompareJsonStruct_false_on_failure
    (GoValue : Type)
    (json_Marshal : GoValue -> string + error)
    (json_Unmarshal : string -> Any + error)
    (reflect_DeepEqual : Any -> Any -> bool)
    (objA objB : GoValue) :
  (exists result : bool,
     CompareJsonStruct GoValue json_Marshal json_Unmarshal reflect_DeepEqual objA objB
     = result) /\
  ((exists err, json_Marshal objA = inr err) \/
   (exists err, json_Marshal objB = inr err) \/
   (exists a err, json_Marshal objA = inl a /\ json_Unmarshal a = inr err) \/
   (exists b err, json_Marshal objB = inl b /\ json_Unmarshal b = inr err) ->
   CompareJsonStruct GoValue json_Marshal json_Unmarshal reflect_DeepEqual objA objB
   = false).
Proof.
  split; [eauto |].
  intros Hfail.
  destruct (CompareJsonStruct GoValue json_Marshal json_Unmarshal reflect_DeepEqual
              objA objB) eqn:Hc; [| reflexivity].
  apply CompareJsonStruct_true_iff in Hc as (a & b & v1 & v2 & Ha & Hb & H1 & H2 & _).
  destruct Hfail as [(e & He) | [(e & He) | [(a' & e & Ha' & He) | (b' & e & Hb' & He)]]];
    congruence.
Qed.

Lemma CompareJsonStruct_false_on_failure_witness :
  (exists err, marshal_scalar ANil = inr err) /\
  CompareJsonStruct Any marshal_scalar unmarshal_scalar deep_equal_scalar
    ANil (ABool true) = false.
Proof.
  assert (H : exists err, marshal_scalar ANil = inr err) by (eexists; reflexivity).
  split; [exact H |].
  exact (proj2 (CompareJsonStruct_false_on_failure Any marshal_scalar unmarshal_scalar
                  deep_equal_scalar ANil (ABool true))
               (or_introl H)).
Defined.

Example CompareJsonStruct_decode_failure :
  CompareJsonStruct Any marshal_scalar unmarshal_scalar deep_equal_scalar
    (ABool true) (AString "tru") = false.
Proof. reflexivity. Qed.

Example CompareJsonStruct_equal :
  CompareJsonStruct Any marshal_scalar unmarshal_scalar deep_equal_scalar
    (ABool true) (AString "true") = true.
Proof. reflexivity. Qed.

(** * Further properties of the package *)

(** ** The name sanitizer: shape of the result *)

Lemma fix_name_first (c : ascii) (t : string) :
  exists c', fix_name c t = String c' t /\
             unicode_IsDigit (rune c') = false /\ unicode_IsPunct (rune c') = false.
Proof.
  unfold fix_name.
  destruct (unicode_IsDigit (rune c)) eqn:Hd; cbn [orb].
  - exists "r"%char. repeat split.
  - destruct (unicode_IsPunct (rune c)) eqn:Hp.
    + exists "r"%char. repeat split.
    + exists c. repeat split; assumption.
Qed.

Lemma fix_label_first (c : ascii) (t : string) :
  exists c', fix_label c t = String c' t /\ unicode_IsPunct (rune c') = false.
Proof.
  unfold fix_label. destruct (unicode_IsPunct (rune c)) eqn:Hp.
  - exists "r"%char. repeat split.
  - exists c. repeat split; assumption.
Qed.

(** The result of [CheckName] on a non-empty name has the length of the
    name capped at 50, starts with a byte that is neither a digit nor a
    punctuation character, and is a suffix of the name up to its first
    byte. *)
Theorem CheckName_result_shape (s : string) :
  s <> "" -> len s < 2 ^ 53 ->
  exists (c : ascii) (t : string),
    CheckName s = Ret (String c t) /\
    len (String c t) = Z.min 50 (len s) /\
    unicode_IsDigit (rune c) = false /\
    unicode_IsPunct (rune c) = false /\
    exists (pre : string) (c0 : ascii), s = pre +:+ String c0 t.
Proof.
  intros Hne Hbound.
  destruct (CheckName_suffix s Hne Hbound) as (pre & c0 & t & Hs & _ & Hlen & Hr).
  destruct (fix_name_first c0 t) as (c & Hfix & Hd & Hp).
  exists c, t. rewrite Hr, Hfix.
  split; [reflexivity |]. split; [rewrite len_cons in *; exact Hlen |].
  repeat (split; [assumption |]). exists pre, c0. exact Hs.
Qed.

Lemma CheckName_result_shape_witness :
  "9-lives" <> "" /\ len "9-lives" < 2 ^ 53 /\
  exists (c : ascii) (t : string),
    CheckName "9-lives" = Ret (String c t) /\
    len (String c t) = Z.min 50 (len "9-lives") /\
    unicode_IsDigit (rune c) = false /\
    unicode_IsPunct (rune c) = false /\
    exists (pre : string) (c0 : ascii), "9-lives" = pre +:+ String c0 t.
Proof.
  split; [discriminate |]. split; [reflexivity |].
  apply (CheckName_result_shape "9-lives"); [discriminate | reflexivity].
Defined.

(** The result of [CheckLabel] on a non-empty value has the length of the
    value capped at 63, does not start with a punctuation character, and
    is a suffix of the value up to its first byte. *)
Theorem CheckLabel_result_shape (s : string) :
  s <> "" -> len s < 2 ^ 53 ->
  exists (c : ascii) (t : string),
    CheckLabel s = Ret (String c t) /\
    len (String c t) = Z.min 63 (len s) /\
    unicode_IsPunct (rune c) = false /\
    exists (pre : string) (c0 : ascii), s = pre +:+ String c0 t.
Proof.
  intros Hne Hbound.
  destruct (CheckLabel_suffix s Hne Hbound) as (pre & c0 & t & Hs & _ & Hlen & Hr).
  destruct (fix_label_first c0 t) as (c & Hfix & Hp).
  exists c, t. rewrite Hr, Hfix.
  split; [reflexivity |]. split; [rewrite len_cons in *; exact Hlen |].
  repeat (split; [assumption |]). exists pre, c0. exact Hs.
Qed.

Lemma CheckLabel_result_shape_witness :
  ".hidden" <> "" /\ len ".hidden" < 2 ^ 53 /\
  exists (c : ascii) (t : string),
    CheckLabel ".hidden" = Ret (String c t) /\
    len (String c t) = Z.min 63 (len ".hidden") /\
    unicode_IsPunct (rune c) = false /\
    exists (pre : string) (c0 : ascii), ".hidden" = pre +:+ String c0 t.
Proof.
  split; [discriminate |]. split; [reflexivity |].
  apply (CheckLabel_result_shape ".hidden"); [discriminate | reflexivity].
Defined.

(** ** The name sanitizer: fixed points and idempotence *)

Lemma CheckName_fixed_iff (s : string) :
  len s < 2 ^ 53 ->
  (CheckName s = Ret s <->
   exists (c : ascii) (t : string),
     s = String c t /\ len s <= 50 /\
     unicode_IsDigit (rune c) = false /\ unicode_IsPunct (rune c) = false).
Proof.
  intros Hbound. split.
  - intros Hfix. destruct s as [| c0 t0].
    + assert (Hp : CheckName "" = Panic IndexOutOfRange) by reflexivity.
      congruence.
    + destruct (CheckName_suffix (String c0 t0)) as (pre & c1 & t & _ & _ & Hlen & Hr);
        [discriminate | assumption |].
      destruct (fix_name_first c1 t) as (c & Hf & Hd & Hp).
      rewrite Hr, Hf in Hfix. injection Hfix as <- <-.
      exists c, t. repeat split; try assumption.
      rewrite !len_cons in *. lia.
  - intros (c & t & -> & Hlen & Hd & Hp).
    rewrite CheckName_short by assumption. unfold fix_name. now rewrite Hd, Hp.
Qed.

Lemma CheckLabel_fixed_iff (s : string) :
  len s < 2 ^ 53 ->
  (CheckLabel s = Ret s <->
   exists (c : ascii) (t : string),
     s = String c t /\ len s <= 63 /\ unicode_IsPunct (rune c) = false).
Proof.
  intros Hbound. split.
  - intros Hfix. destruct s as [| c0 t0].
    + assert (Hp : CheckLabel "" = Panic IndexOutOfRange) by reflexivity.
      congruence.
    + destruct (CheckLabel_suffix (String c0 t0)) as (pre & c1 & t & _ & _ & Hlen & Hr);
        [discriminate | assumption |].
      destruct (fix_label_first c1 t) as (c & Hf & Hp).
      rewrite Hr, Hf in Hfix. injection Hfix as <- <-.
      exists c, t. repeat split; try assumption.
      rewrite !len_cons in *. lia.
  - intros (c & t & -> & Hlen & Hp).
    rewrite CheckLabel_short by assumption. unfold fix_label. now rewrite Hp.
Qed.

(** [CheckName] returns its argument unchanged exactly on the names that
    are already acceptable: non-empty, at most 50 bytes, and starting
    with neither a digit nor a punctuation character. *)
Theorem CheckName_unchanged_iff_valid (s : string) :
  len s < 2 ^ 53 ->
  (CheckName s = Ret s <->
   exists (c : ascii) (t : string),
     s = String c t /\ len s <= 50 /\
     unicode_IsDigit (rune c) = false /\ unicode_IsPunct (rune c) = false).
Proof. apply CheckName_fixed_iff. Qed.

Lemma CheckName_unchanged_iff_valid_witness :
  len "raycluster-sample" < 2 ^ 53 /\
  (CheckName "raycluster-sample" = Ret "raycluster-sample" <->
   exists (c : ascii) (t : string),
     "raycluster-sample" = String c t /\ len "raycluster-sample" <= 50 /\
     unicode_IsDigit (rune c) = false /\ unicode_IsPunct (rune c) = false).
Proof.
  split; [reflexivity |].
  apply (CheckName_unchanged_iff_valid "raycluster-sample"). reflexivity.
Defined.

(** [CheckLabel] returns its argument unchanged exactly on the values
    that are non-empty, at most 63 bytes long and do not start with a
    punctuation character. *)
Theorem CheckLabel_unchanged_iff_valid (s : string) :
  len s < 2 ^ 53 ->
  (CheckLabel s = Ret s <->
   exists (c : ascii) (t : string),
     s = String c t /\ len s <= 63 /\ unicode_IsPunct (rune c) = false).
Proof. apply CheckLabel_fixed_iff. Qed.

Lemma CheckLabel_unchanged_iff_valid_witness :
  len "1abc" < 2 ^ 53 /\
  (CheckLabel "1abc" = Ret "1abc" <->
   exists (c : ascii) (t : string),
     "1abc" = String c t /\ len "1abc" <= 63 /\ unicode_IsPunct (rune c) = false).
Proof.
  split; [reflexivity |].
  apply (CheckLabel_unchanged_iff_valid "1abc"). reflexivity.
Defined.

(** Sanitizing twice is sanitizing once, for both functions. *)
Theorem CheckName_CheckLabel_idempotent (s r : string) :
  len s < 2 ^ 53 ->
  (CheckName s = Ret r -> CheckName r = Ret r) /\
  (CheckLabel s = Ret r -> CheckLabel r = Ret r).
Proof.
  intros Hbound. split; intros Hr.
  - destruct s as [| c0 t0].
    { assert (Hp : CheckName "" = Panic IndexOutOfRange) by reflexivity. congruence. }
    destruct (CheckName_suffix (String c0 t0)) as (pre & c1 & t & _ & _ & Hlen & Hr');
      [discriminate | assumption |].
    destruct (fix_name_first c1 t) as (c & Hf & Hd & Hp).
    rewrite Hr', Hf in Hr. injection Hr as <-.
    assert (Hb : len (String c t) < 2 ^ 53) by (rewrite !len_cons in *; lia).
    apply (CheckName_fixed_iff _ Hb). exists c, t.
    repeat split; try assumption. rewrite !len_cons in *. lia.
  - destruct s as [| c0 t0].
    { assert (Hp : CheckLabel "" = Panic IndexOutOfRange) by reflexivity. congruence. }
    destruct (CheckLabel_suffix (String c0 t0)) as (pre & c1 & t & _ & _ & Hlen & Hr');
      [discriminate | assumption |].
    destruct (fix_label_first c1 t) as (c & Hf & Hp).
    rewrite Hr', Hf in Hr. injection Hr as <-.
    assert (Hb : len (String c t) < 2 ^ 53) by (rewrite !len_cons in *; lia).
    apply (CheckLabel_fixed_iff _ Hb). exists c, t.
    repeat split; try assumption. rewrite !len_cons in *. lia.
Qed.

Lemma CheckName_CheckLabel_idempotent_witness :
  len "-head" < 2 ^ 53 /\
  CheckName "-head" = Ret "rhead" /\ CheckLabel "-head" = Ret "rhead" /\
  CheckName "rhead" = Ret "rhead" /\ CheckLabel "rhead" = Ret "rhead".
Proof.
  split; [reflexivity |]. split; [reflexivity |]. split; [reflexivity |].
  split.
  - exact (proj1 (CheckName_CheckLabel_idempotent "-head" "rhead" eq_refl) eq_refl).
  - exact (proj2 (CheckName_CheckLabel_idempotent "-head" "rhead" eq_refl) eq_refl).
Defined.

(** ** Pod lists *)

Lemma CheckAllPodsRunnning_items_iff (items : list corev1.Pod) :
  CheckAllPodsRunnning_items items = true <->
  (forall pod, In pod items -> corev1.Phase (corev1.Status pod) = corev1.PodRunning).
Proof.
  induction items as [| pod rest IH]; cbn [CheckAllPodsRunnning_items].
  - split; [intros _ pod [] | reflexivity].
  - destruct (String.eqb_spec (corev1.Phase (corev1.Status pod)) corev1.PodRunning)
      as [Heq | Hne]; cbn [negb].
    + rewrite IH. split.
      * intros H p [<- | Hp]; [exact Heq | now apply H].
      * intros H p Hp. apply H. now right.
    + split; [discriminate |]. intros H. exfalso. apply Hne, H. now left.
Qed.

Lemma viable_pods_all_running (items : list corev1.Pod) :
  (forall pod, In pod items -> corev1.Phase (corev1.Status pod) = corev1.PodRunning) ->
  viable_pods items = items.
Proof.
  intros H. unfold viable_pods. induction items as [| pod rest IH]; [reflexivity |].
  cbn [List.filter].
  assert (Hp : pending_or_running pod = true).
  { apply pending_or_running_spec. right. apply H. now left. }
  rewrite Hp. f_equal. apply IH. intros p Hin. apply H. now right.
Qed.

Lemma length_viable_pods (items : list corev1.Pod) :
  (length (viable_pods items) <= length items)%nat.
Proof.
  unfold viable_pods. induction items as [| pod rest IH]; [reflexivity |].
  cbn [List.filter]. destruct (pending_or_running pod); cbn [length]; lia.
Qed.

(** [CheckAllPodsRunnning] answers [true] exactly when every pod of the
    list is in phase Running (so also on the empty list); every pod is
    then created and counted by [CalculateAvailableReplicas]. *)
Theorem CheckAllPodsRunnning_all_available (pods : corev1.PodList) :
  (CheckAllPodsRunnning pods = true <->
   forall pod, In pod (corev1.Items pods) ->
               corev1.Phase (corev1.Status pod) = corev1.PodRunning) /\
  (CheckAllPodsRunnning pods = true ->
   (forall pod, In pod (corev1.Items pods) -> IsCreated pod = true) /\
   (Z.of_nat (length (corev1.Items pods)) <= int32_max ->
    CalculateAvailableReplicas pods = Z.of_nat (length (corev1.Items pods)))).
Proof.
  unfold CheckAllPodsRunnning. split; [apply CheckAllPodsRunnning_items_iff |].
  intros Hall'. pose proof (proj1 (CheckAllPodsRunnning_items_iff _) Hall') as Hall.
  split.
  - intros pod Hin. unfold IsCreated. now rewrite (Hall pod Hin).
  - intros Hle. unfold CalculateAvailableReplicas.
    rewrite count_available_from by (compute; split; discriminate).
    rewrite viable_pods_all_running by assumption.
    apply wrap_int32_small. unfold in_int32, int32_min, int32_max in *. lia.
Qed.

Lemma CheckAllPodsRunnning_all_available_witness :
  let pods := {| corev1.Items := [ pod_in_phase corev1.PodRunning;
                                   pod_in_phase corev1.PodRunning ] |} in
  CheckAllPodsRunnning pods = true /\
  Z.of_nat (length (corev1.Items pods)) <= int32_max /\
  CalculateAvailableReplicas pods = 2.
Proof.
  cbv zeta.
  assert (Hle : Z.of_nat (length (corev1.Items
            {| corev1.Items := [ pod_in_phase corev1.PodRunning;
                                 pod_in_phase corev1.PodRunning ] |})) <= int32_max)
    by (intros Hgt; discriminate Hgt).
  split; [reflexivity |]. split; [exact Hle |].
  exact (proj2 (proj2 (CheckAllPodsRunnning_all_available
                         {| corev1.Items := [ pod_in_phase corev1.PodRunning;
                                              pod_in_phase corev1.PodRunning ] |})
                      eq_refl) Hle).
Defined.

(** The count of [CalculateAvailableReplicas] is never negative and never
    more than the number of pods in the list (for a list whose length is
    an [int32]). *)
Theorem CalculateAvailableReplicas_bounds (pods : corev1.PodList) :
  Z.of_nat (length (corev1.Items pods)) <= int32_max ->
  0 <= CalculateAvailableReplicas pods <= Z.of_nat (length (corev1.Items pods)).
Proof.
  intros Hle. unfold CalculateAvailableReplicas.
  rewrite count_available_from by (compute; split; discriminate).
  pose proof (length_viable_pods (corev1.Items pods)) as Hv.
  rewrite wrap_int32_small; [lia |].
  unfold in_int32, int32_min, int32_max in *. lia.
Qed.

Lemma CalculateAvailableReplicas_bounds_witness :
  Z.of_nat (length (corev1.Items pods_3_running_1_failed_1_pending)) <= int32_max /\
  0 <= CalculateAvailableReplicas pods_3_running_1_failed_1_pending
    <= Z.of_nat (length (corev1.Items pods_3_running_1_failed_1_pending)).
Proof.
  assert (Hle : Z.of_nat (length (corev1.Items pods_3_running_1_failed_1_pending))
                <= int32_max) by (intros Hgt; discriminate Hgt).
  split; [exact Hle |].
  exact (CalculateAvailableReplicas_bounds pods_3_running_1_failed_1_pending Hle).
Defined.

(** An unset field makes the aggregator panic, in whichever group it is
    (the first unset field met stops the loop). *)
Lemma Calculate_replicas_panic_when_unset_witness :
  let groups := rayv1alpha1.WorkerGroupSpecs (rayv1alpha1.Spec cluster_some_unset) in
  Exists (fun g => rayv1alpha1.Replicas g = None) groups /\
  Exists (fun g => rayv1alpha1.MinReplicas g = None) groups /\
  Exists (fun g => rayv1alpha1.MaxReplicas g = None) groups /\
  CalculateDesiredReplicas cluster_some_unset = Panic NilDereference /\
  CalculateMinReplicas cluster_some_unset = Panic NilDereference /\
  CalculateMaxReplicas cluster_some_unset = Panic NilDereference.
Proof.
  cbv zeta.
  assert (H1 : Exists (fun g => rayv1alpha1.Replicas g = None)
                 (rayv1alpha1.WorkerGroupSpecs (rayv1alpha1.Spec cluster_some_unset)))
    by (apply Exists_cons_hd; reflexivity).
  assert (H2 : Exists (fun g => rayv1alpha1.MinReplicas g = None)
                 (rayv1alpha1.WorkerGroupSpecs (rayv1alpha1.Spec cluster_some_unset)))
    by (apply Exists_cons_tl, Exists_cons_hd; reflexivity).
  assert (H3 : Exists (fun g => rayv1alpha1.MaxReplicas g = None)
                 (rayv1alpha1.WorkerGroupSpecs (rayv1alpha1.Spec cluster_some_unset)))
    by (apply Exists_cons_tl, Exists_cons_tl, Exists_cons_hd; reflexivity).
  destruct (Calculate_replicas_panic_when_unset cluster_some_unset) as (D & Mi & Ma).
  repeat apply conj; auto.
Defined.

(** ** The pod/template comparator: guard, names, matched pairs *)

Lemma match_template_false (h : gmap nat corev1.Container)
    (tmpl : list corev1.Container) (cm : gmap string nat) :
  match_template h cm tmpl = false ->
  dom cm = list_to_set (corev1.Name <$> tmpl) /\ NoDup (corev1.Name <$> tmpl).
Proof.
  revert cm. induction tmpl as [| c1 rest IH]; intros cm Hf.
  - cbn [match_template] in Hf. apply negb_false_iff, Nat.eqb_eq in Hf.
    apply map_size_empty_inv in Hf as ->. split; [apply dom_empty_L | constructor].
  - cbn [match_template] in Hf.
    destruct (cm !! corev1.Name c1) as [addr |] eqn:Hl; [| discriminate].
    destruct (containers_differ c1 (load h addr)); [discriminate |].
    apply IH in Hf as [Hdom Hnd].
    rewrite dom_delete_L in Hdom.
    assert (Hin : corev1.Name c1 ∈ dom cm) by (apply elem_of_dom; eauto).
    assert (Hnotin : corev1.Name c1 ∉ corev1.Name <$> rest).
    { intros Hc. apply (elem_of_list_to_set (C := gset string)) in Hc.
      rewrite <- Hdom in Hc. set_solver. }
    split.
    + rewrite fmap_cons. cbn [list_to_set foldr].
      apply set_eq. intros x. rewrite elem_of_union, elem_of_singleton.
      destruct (decide (x = corev1.Name c1)) as [-> | Hne].
      * tauto.
      * rewrite <- Hdom. set_solver.
    + rewrite fmap_cons. now apply NoDup_cons.
Qed.

(** [PodNotMatchingTemplate] judges only pods that run and are not being
    deleted: on any other pod it answers [false], whatever the template. *)
Theorem PodNotMatchingTemplate_only_running_pods
    (pod : corev1.Pod) (template : corev1.PodTemplateSpec) :
  corev1.Phase (corev1.Status pod) <> corev1.PodRunning \/
  metav1.DeletionTimestamp (corev1.ObjectMeta pod) <> None ->
  PodNotMatchingTemplate pod template = false.
Proof.
  intros H. unfold PodNotMatchingTemplate, PodNotMatchingTemplate_under.
  destruct H as [Hp | Hd].
  - destruct (String.eqb_spec (corev1.Phase (corev1.Status pod)) corev1.PodRunning);
      [contradiction | reflexivity].
  - rewrite bool_decide_eq_false_2 by assumption. now rewrite andb_false_r.
Qed.

Lemma PodNotMatchingTemplate_only_running_pods_witness :
  corev1.Phase (corev1.Status (pod_in_phase corev1.PodPending)) <> corev1.PodRunning /\
  PodNotMatchingTemplate (pod_in_phase corev1.PodPending) template_sidecar_head = false.
Proof.
  assert (H : corev1.Phase (corev1.Status (pod_in_phase corev1.PodPending))
              <> corev1.PodRunning) by discriminate.
  split; [exact H |].
  exact (PodNotMatchingTemplate_only_running_pods
           (pod_in_phase corev1.PodPending) template_sidecar_head (or_introl H)).
Defined.

(** A verdict of no drift on a running pod means: as many containers as
    the template, pairwise distinct template names, and the same set of
    names on both sides.  Any difference in the number of containers or
    in the names is reported as drift. *)
Theorem PodNotMatchingTemplate_false_names
    (pod : corev1.Pod) (template : corev1.PodTemplateSpec) :
  running_not_deleted pod ->
  PodNotMatchingTemplate pod template = false ->
  length (desired template) = length (observed pod) /\
  NoDup (corev1.Name <$> desired template) /\
  NoDup (corev1.Name <$> observed pod) /\
  (forall name : string,
     name ∈ (corev1.Name <$> desired template) <->
     name ∈ (corev1.Name <$> observed pod)).
Proof.
  intros [Hphase Hdel] Hf.
  unfold PodNotMatchingTemplate, PodNotMatchingTemplate_under in Hf.
  fold (observed pod) (desired template) in Hf.
  rewrite Hphase, Hdel, String.eqb_refl, bool_decide_eq_true_2 in Hf by reflexivity.
  cbn [andb] in Hf.
  destruct (Nat.eqb_spec (length (desired template)) (length (observed pod)))
    as [Hlen | Hlen]; [| discriminate]. cbn [negb] in Hf.
  apply match_template_false in Hf as [Hdom Hnd].
  rewrite build_cmap_dom in Hdom. cbn [empty_cmap_state cmap] in Hdom.
  rewrite dom_empty_L, (right_id_L ∅ (∪)) in Hdom.
  assert (Hset : forall name : string,
             name ∈ (corev1.Name <$> desired template) <->
             name ∈ (corev1.Name <$> observed pod)).
  { intros name.
    rewrite <- (elem_of_list_to_set (C := gset string) name (corev1.Name <$> desired template)).
    rewrite <- Hdom. apply elem_of_list_to_set. }
  repeat split; try assumption; try apply Hset.
  assert (Hsub : corev1.Name <$> desired template ⊆+ corev1.Name <$> observed pod).
  { apply NoDup_submseteq; [assumption |]. intros name. apply Hset. }
  apply submseteq_length_Permutation in Hsub; [| rewrite !length_fmap; lia].
  now rewrite <- Hsub.
Qed.

Lemma PodNotMatchingTemplate_false_names_witness :
  running_not_deleted (running_pod [ray_head]) /\
  PodNotMatchingTemplate (running_pod [ray_head]) (template_of [ray_head]) = false /\
  length (desired (template_of [ray_head])) = length (observed (running_pod [ray_head])).
Proof.
  assert (Hr : running_not_deleted (running_pod [ray_head])) by (split; reflexivity).
  split; [exact Hr |]. split; [reflexivity |].
  exact (proj1 (PodNotMatchingTemplate_false_names
                  (running_pod [ray_head]) (template_of [ray_head]) Hr eq_refl)).
Defined.

Lemma resource_list_not_differs (r1 r2 : gmap string Quantity) :
  resource_list_differs r1 r2 = false ->
  forall name q1, r1 !! name = Some q1 ->
                  exists q2, r2 !! name = Some q2 /\ Qeq q1 q2.
Proof.
  unfold resource_list_differs. intros Hf name q1 Hl.
  assert (Hin : (name, q1) ∈ map_to_list r1) by now apply elem_of_map_to_list.
  destruct (existsb _ (map_to_list r1)) eqn:He; [discriminate |].
  assert (Hall : forall e, In e (map_to_list r1) ->
             match r2 !! e.1 with
             | Some quantity2 => negb (Quantity_Cmp e.2 quantity2 =? 0)
             | None => true
             end = false).
  { intros e Hine. destruct (match r2 !! e.1 with Some _ => _ | None => _ end) eqn:Hm;
      [| reflexivity].
    assert (existsb (fun entry : string * Quantity =>
               match r2 !! entry.1 with
               | Some quantity2 => negb (Quantity_Cmp entry.2 quantity2 =? 0)
               | None => true
               end) (map_to_list r1) = true)
      by (apply existsb_exists; eauto).
    congruence. }
  apply list_elem_of_In in Hin. specialize (Hall _ Hin). cbn [fst snd] in Hall.
  destruct (r2 !! name) as [q2 |]; [| discriminate].
  exists q2. split; [reflexivity |].
  apply negb_false_iff, Z.eqb_eq in Hall. unfold Quantity_Cmp in Hall.
  apply Qeq_alt. destruct (Qcompare q1 q2); [reflexivity | discriminate | discriminate].
Qed.

Lemma resource_list_agree_of_not_differs (r1 r2 : gmap string Quantity) :
  size r1 = size r2 -> resource_list_differs r1 r2 = false -> resources_agree r1 r2.
Proof.
  intros Hsize Hf.
  pose proof (resource_list_not_differs r1 r2 Hf) as Hsub.
  assert (Hdom : dom r1 = dom r2).
  { apply set_eq. apply set_subseteq_size_equiv.
    - intros name Hin. apply elem_of_dom in Hin as [q1 Hq1].
      destruct (Hsub name q1 Hq1) as (q2 & Hq2 & _). apply elem_of_dom. eauto.
    - rewrite !size_dom. lia. }
  intros name. destruct (r1 !! name) as [q1 |] eqn:H1.
  - destruct (Hsub name q1 H1) as (q2 & -> & Hq). exact Hq.
  - destruct (r2 !! name) as [q2 |] eqn:H2; [| exact I].
    assert (Hin : name ∈ dom r2) by (apply elem_of_dom; eauto).
    rewrite <- Hdom in Hin. apply elem_of_dom in Hin as [q Hq]. congruence.
Qed.

(** The comparison of a matched pair is complete: it finds no difference
    exactly when the images are the same string and the requests and the
    limits hold the same amounts under the same resource names.  (The
    loop only walks the entries of the template's lists; the test on the
    number of entries makes it cover the pod's lists as well.) *)
Theorem containers_differ_false_iff (c1 c2 : corev1.Container) :
  containers_differ c1 c2 = false <->
  corev1.Image c1 = corev1.Image c2 /\
  resources_agree (corev1.Requests (corev1.Resources c1))
                  (corev1.Requests (corev1.Resources c2)) /\
  resources_agree (corev1.Limits (corev1.Resources c1))
                  (corev1.Limits (corev1.Resources c2)).
Proof.
  split.
  - unfold containers_differ.
    destruct (String.eqb_spec (corev1.Image c1) (corev1.Image c2)) as [Himg | ];
      [| discriminate]. cbn [negb].
    destruct (Nat.eqb_spec (size (corev1.Requests (corev1.Resources c1)))
                           (size (corev1.Requests (corev1.Resources c2))))
      as [Hs1 |]; [| discriminate].
    destruct (Nat.eqb_spec (size (corev1.Limits (corev1.Resources c1)))
                           (size (corev1.Limits (corev1.Resources c2))))
      as [Hs2 |]; [| discriminate].
    cbn [negb orb zip zip_with existsb fst snd]. intros H.
    apply orb_false_elim in H as [Hreq H]. apply orb_false_elim in H as [Hlim _].
    repeat split; try assumption; now apply resource_list_agree_of_not_differs.
  - intros (Himg & Hreq & Hlim).
    (* the name plays no part in the comparison of the pair *)
    unfold containers_differ.
    rewrite Himg, String.eqb_refl. cbn [negb].
    rewrite (resources_agree_size _ _ Hreq), (resources_agree_size _ _ Hlim).
    rewrite !Nat.eqb_refl. cbn [negb orb zip zip_with existsb fst snd].
    now rewrite !resources_agree_not_differs.
Qed.

(** For a running pod with one container and a template with one
    container the verdict is exact: drift when the names differ, and
    otherwise drift exactly when the pair differs. *)
Theorem PodNotMatchingTemplate_one_container
    (pod : corev1.Pod) (template : corev1.PodTemplateSpec)
    (c1 c2 : corev1.Container) :
  running_not_deleted pod ->
  observed pod = [c2] -> desired template = [c1] ->
  PodNotMatchingTemplate pod template
  = if String.eqb (corev1.Name c1) (corev1.Name c2)
    then containers_differ c1 c2 else true.
Proof.
  intros [Hphase Hdel] Ho Hd.
  unfold PodNotMatchingTemplate, PodNotMatchingTemplate_under.
  fold (observed pod) (desired template).
  rewrite Hphase, Hdel, String.eqb_refl, bool_decide_eq_true_2 by reflexivity.
  rewrite Ho, Hd. cbn [andb length Nat.eqb negb build_cmap empty_cmap_state heap cmap
                       match_template].
  destruct (String.eqb_spec (corev1.Name c1) (corev1.Name c2)) as [Hn | Hn].
  - rewrite Hn, lookup_insert_eq. unfold load. rewrite lookup_insert_eq.
    change (default corev1.zero_Container (Some c2)) with c2.
    destruct (containers_differ c1 c2); [reflexivity |].
    now rewrite delete_insert_eq, delete_empty, map_size_empty.
  - rewrite lookup_insert_ne by congruence. now rewrite lookup_empty.
Qed.

Lemma PodNotMatchingTemplate_one_container_witness :
  running_not_deleted (running_pod [worker_old]) /\
  PodNotMatchingTemplate (running_pod [worker_old]) (template_of [worker_new])
  = (if String.eqb (corev1.Name worker_new) (corev1.Name worker_old)
     then containers_differ worker_new worker_old else true).
Proof.
  assert (Hr : running_not_deleted (running_pod [worker_old])) by (split; reflexivity).
  split; [exact Hr |].
  exact (PodNotMatchingTemplate_one_container
           (running_pod [worker_old]) (template_of [worker_new])
           worker_new worker_old Hr eq_refl eq_refl).
Defined.

Lemma PodNotMatchingTemplate_compares_with_last_witness :
  running_not_deleted pod_head_sidecar /\
  NoDup (corev1.Name <$> observed pod_head_sidecar) /\
  corev1.Name <$> desired template_sidecar_head
    ≡ₚ corev1.Name <$> observed pod_head_sidecar /\
  last (observed pod_head_sidecar) = Some sidecar /\
  PodNotMatchingTemplate pod_head_sidecar template_sidecar_head
  = existsb (fun c1 => containers_differ c1 sidecar) (desired template_sidecar_head).
Proof.
  assert (Hr : running_not_deleted pod_head_sidecar) by (split; reflexivity).
  assert (Hnd : NoDup (corev1.Name <$> observed pod_head_sidecar)).
  { cbn. repeat constructor; set_solver. }
  assert (Hp : corev1.Name <$> desired template_sidecar_head
               ≡ₚ corev1.Name <$> observed pod_head_sidecar)
    by apply Permutation_swap.
  repeat (split; [assumption || reflexivity |]).
  exact (PodNotMatchingTemplate_compares_with_last
           pod_head_sidecar template_sidecar_head sidecar Hr Hnd Hp eq_refl).
Defined.

(** ** Container lookup by name *)

Lemma string_compare_refl (a : string) : String.compare a a = Eq.
Proof.
  pose proof (String.compare_antisym a a) as H.
  destruct (String.compare a a); [reflexivity | discriminate H | discriminate H].
Qed.

Lemma strings_Compare_zero (a b : string) :
  (strings_Compare a b =? 0) = true <-> a = b.
Proof.
  unfold strings_Compare. split.
  - intros H. apply String.compare_eq_iff.
    destruct (String.compare a b); [reflexivity | discriminate H | discriminate H].
  - intros ->. now rewrite string_compare_refl.
Qed.

(** [FilterContainerByName] returns, with a [nil] error, the first
    container of the list that has the requested name. *)
Theorem FilterContainerByName_first_match
    (pre post : list corev1.Container) (c : corev1.Container) (name : string) :
  corev1.Name c = name ->
  (forall c', c' ∈ pre -> corev1.Name c' <> name) ->
  FilterContainerByName (pre ++ c :: post) name = (c, None).
Proof.
  intros Hc Hpre. induction pre as [| c0 pre IH]; cbn [app FilterContainerByName].
  - now rewrite (proj2 (strings_Compare_zero _ _) Hc).
  - destruct (strings_Compare (corev1.Name c0) name =? 0) eqn:Hcmp.
    + apply strings_Compare_zero in Hcmp. exfalso.
      apply (Hpre c0); [apply list_elem_of_here | exact Hcmp].
    + apply IH. intros c' Hc'. apply Hpre. now apply list_elem_of_further.
Qed.

Lemma FilterContainerByName_first_match_witness :
  corev1.Name sidecar = "sidecar" /\
  (forall c', c' ∈ [ray_head] -> corev1.Name c' <> "sidecar") /\
  FilterContainerByName ([ray_head] ++ sidecar :: [container "sidecar" "other" (1 # 1)])
                        "sidecar"
  = (sidecar, None).
Proof.
  assert (Hpre : forall c', c' ∈ [ray_head] -> corev1.Name c' <> "sidecar").
  { intros c' Hc'. apply list_elem_of_singleton in Hc' as ->. discriminate. }
  split; [reflexivity |]. split; [exact Hpre |].
  exact (FilterContainerByName_first_match [ray_head]
           [container "sidecar" "other" (1 # 1)] sidecar "sidecar" eq_refl Hpre).
Defined.

(** [FilterContainerByName] returns an error exactly when no container of
    the list has the requested name; the error names the container and
    comes with the zero [Container]. *)
Theorem FilterContainerByName_error_iff_absent
    (containers : list corev1.Container) (name : string) :
  ((forall c, c ∈ containers -> corev1.Name c <> name) <->
   FilterContainerByName containers name
   = (corev1.zero_Container, Some ("can not find container " +:+ name))) /\
  ((exists c, c ∈ containers /\ corev1.Name c = name) <->
   exists c, c ∈ containers /\ corev1.Name c = name /\
             FilterContainerByName containers name = (c, None)).
Proof.
  induction containers as [| c0 rest [IHa IHp]]; cbn [FilterContainerByName].
  - split.
    + split; [reflexivity |]. intros _ c Hc. inversion Hc.
    + split; intros (c & Hc & _); inversion Hc.
  - destruct (strings_Compare (corev1.Name c0) name =? 0) eqn:Hcmp.
    + apply strings_Compare_zero in Hcmp. split.
      * split; [| discriminate].
        intros H. exfalso. apply (H c0); [apply list_elem_of_here | exact Hcmp].
      * split; intros _; exists c0; repeat split;
          try apply list_elem_of_here; exact Hcmp.
    + assert (Hne : corev1.Name c0 <> name).
      { intros Heq. apply strings_Compare_zero in Heq. congruence. }
      split.
      * rewrite <- IHa. split.
        -- intros H c Hc. apply H. now apply list_elem_of_further.
        -- intros H c Hc. apply elem_of_cons in Hc as [-> | Hc]; [exact Hne | now apply H].
      * split.
        -- intros (c & Hc & Hn). apply elem_of_cons in Hc as [-> | Hc]; [contradiction |].
           destruct (proj1 IHp (ex_intro _ c (conj Hc Hn))) as (c' & Hc' & Hn' & Hr).
           exists c'. repeat split; try assumption. now apply list_elem_of_further.
        -- intros (c & Hc & Hn & _). eauto.
Qed.

(** ** [Before] and [strings.Index] *)

Lemma prefix_app (a s : string) :
  String.prefix a s = true <-> exists rest, s = a +:+ rest.
Proof.
  revert s. induction a as [| c a IH]; intros s.
  - split; [intros _; now exists s | intros _; now destruct s].
  - destruct s as [| d s]; cbn [String.prefix].
    + split; [discriminate | intros [rest H]; discriminate H].
    + destruct (ascii_dec c d) as [-> | Hne].
      * rewrite IH. split; intros [rest H]; exists rest.
        -- rewrite append_cons. now f_equal.
        -- rewrite append_cons in H. now injection H.
      * split; [discriminate |]. intros [rest H]. rewrite append_cons in H.
        injection H as H1 _. congruence.
Qed.

Lemma len_append (s t : string) : len (s +:+ t) = len s + len t.
Proof.
  induction s as [| c s IH].
  - change ("" +:+ t) with t. change (len "") with 0. lia.
  - rewrite append_cons, !len_cons, IH. lia.
Qed.

Lemma strings_Index_lower (s a : string) : -1 <= strings_Index s a.
Proof.
  induction s as [| c s IH]; cbn [strings_Index];
    destruct (String.prefix a _); try lia.
  destruct (Z.eqb_spec (strings_Index s a) (-1)); lia.
Qed.

Lemma strings_Index_found (s a : string) (p : Z) :
  strings_Index s a = p -> p <> -1 ->
  exists pre rest,
    s = pre +:+ a +:+ rest /\ len pre = p /\
    forall pre' rest', s = pre' +:+ a +:+ rest' -> p <= len pre'.
Proof.
  revert p. induction s as [| c s IH]; intros p Hp Hne; cbn [strings_Index] in Hp.
  - destruct (String.prefix a "") eqn:Hpre; [| congruence].
    apply prefix_app in Hpre as [rest Hrest]. subst p.
    exists "", rest. repeat split; [exact Hrest |].
    intros pre' rest' _. apply len_nonneg.
  - destruct (String.prefix a (String c s)) eqn:Hpre.
    + apply prefix_app in Hpre as [rest Hrest]. subst p.
      exists "", rest. repeat split; [exact Hrest |].
      intros pre' rest' _. apply len_nonneg.
    + destruct (Z.eqb_spec (strings_Index s a) (-1)) as [Heq | Hr]; [congruence |].
      destruct (IH _ eq_refl Hr) as (pre & rest & Hs & Hlen & Hmin).
      exists (String c pre), rest. repeat split.
      * rewrite append_cons. now f_equal.
      * rewrite len_cons. lia.
      * intros pre' rest' Hdec. destruct pre' as [| d pre''].
        -- assert (String.prefix a (String c s) = true)
             by (apply prefix_app; exists rest'; exact Hdec).
           congruence.
        -- rewrite append_cons in Hdec. injection Hdec as _ Hdec.
           rewrite len_cons. specialize (Hmin _ _ Hdec). lia.
Qed.

Lemma strings_Index_absent (s a : string) :
  strings_Index s a = -1 -> ~ occurs a s.
Proof.
  induction s as [| c s IH]; cbn [strings_Index]; intros Hi (pre & rest & Hdec).
  - destruct (String.prefix a "") eqn:Hpre; [discriminate |].
    destruct pre; [| discriminate Hdec].
    assert (String.prefix a "" = true) by (apply prefix_app; exists rest; exact Hdec).
    congruence.
  - destruct (String.prefix a (String c s)) eqn:Hpre; [discriminate |].
    destruct (Z.eqb_spec (strings_Index s a) (-1)) as [Heq | Hr].
    + destruct pre as [| d pre''].
      * assert (String.prefix a (String c s) = true)
          by (apply prefix_app; exists rest; exact Hdec).
        congruence.
      * rewrite append_cons in Hdec. injection Hdec as _ Hdec.
        apply (IH Heq). now exists pre'', rest.
    + pose proof (strings_Index_lower s a). lia.
Qed.

Lemma take_bytes_append (pre x : string) :
  take_bytes (String.length pre) (pre +:+ x) = pre.
Proof.
  induction pre as [| c pre IH]; [reflexivity |].
  cbn [String.length]. rewrite append_cons. cbn [take_bytes]. now f_equal.
Qed.

Lemma slice_prefix (pre x : string) : slice (pre +:+ x) 0 (len pre) = Ret pre.
Proof.
  unfold slice. rewrite len_append.
  pose proof (len_nonneg pre). pose proof (len_nonneg x).
  destruct (Z.leb_spec 0 0); [| lia].
  destruct (Z.leb_spec 0 (len pre)); [| lia].
  destruct (Z.leb_spec (len pre) (len pre + len x)); [| lia].
  cbn [andb]. rewrite Z.sub_0_r. unfold len. rewrite Nat2Z.id.
  change (Z.to_nat 0) with 0%nat. cbn [drop_bytes].
  now rewrite take_bytes_append.
Qed.

Lemma Before_cases (value a : string) :
  (strings_Index value a = -1 /\ Before value a = Ret "") \/
  (exists pre rest,
     value = pre +:+ a +:+ rest /\ Before value a = Ret pre /\
     forall pre' rest', value = pre' +:+ a +:+ rest' -> len pre <= len pre').
Proof.
  unfold Before. cbv zeta.
  destruct (Z.eqb_spec (strings_Index value a) (-1)) as [Heq | Hne].
  - now left.
  - right. destruct (strings_Index_found value a _ eq_refl Hne)
      as (pre & rest & Hs & Hlen & Hmin).
    exists pre, rest. repeat split; [exact Hs | | ].
    + rewrite <- Hlen. rewrite Hs at 1. apply slice_prefix.
    + intros pre' rest' Hd. rewrite Hlen. exact (Hmin _ _ Hd).
Qed.

(** When [a] occurs in [value], [Before] returns the part of [value] in
    front of its first occurrence: [value] is that part, then [a], then a
    rest, and no occurrence of [a] starts further left. *)
Theorem Before_first_occurrence (value a : string) :
  occurs a value ->
  exists pre rest,
    value = pre +:+ a +:+ rest /\ Before value a = Ret pre /\
    forall pre' rest', value = pre' +:+ a +:+ rest' -> len pre <= len pre'.
Proof.
  intros Hocc. destruct (Before_cases value a) as [[Habs _] | H]; [| exact H].
  exfalso. exact (strings_Index_absent _ _ Habs Hocc).
Qed.

Lemma Before_first_occurrence_witness :
  occurs ":" "10.0.0.1:6379:x" /\
  exists pre rest,
    "10.0.0.1:6379:x" = pre +:+ ":" +:+ rest /\
    Before "10.0.0.1:6379:x" ":" = Ret pre /\
    forall pre' rest', "10.0.0.1:6379:x" = pre' +:+ ":" +:+ rest' -> len pre <= len pre'.
Proof.
  assert (Hocc : occurs ":" "10.0.0.1:6379:x") by (exists "10.0.0.1:6379", "x"; reflexivity).
  split; [exact Hocc |].
  exact (Before_first_occurrence "10.0.0.1:6379:x" ":" Hocc).
Defined.

(** [Before] always returns (its slice is within bounds); it returns the
    empty string when [a] does not occur in [value], and also when [a]
    is empty, whose first occurrence is at index 0. *)
Theorem Before_absent_or_empty (value a : string) :
  returns (Before value a) /\
  (~ occurs a value -> Before value a = Ret "") /\
  Before value "" = Ret "".
Proof.
  repeat split.
  - destruct (Before_cases value a) as [[_ H] | (pre & rest & _ & H & _)];
      rewrite H; eexists; reflexivity.
  - intros Habs. destruct (Before_cases value a) as [[_ H] | (pre & rest & Hs & _)];
      [exact H |].
    exfalso. apply Habs. now exists pre, rest.
  - destruct (Before_cases value "") as [[Habs _] | (pre & rest & Hs & Hb & Hmin)].
    + exfalso. apply (strings_Index_absent _ _ Habs). now exists "", value.
    + assert (Hz : len pre <= len "") by (apply (Hmin "" value); reflexivity).
      change (len "") with 0 in Hz.
      assert (pre = "") by (apply len_zero_empty; pose proof (len_nonneg pre); lia).
      now subst pre.
Qed.

Lemma Before_absent_or_empty_witness :
  ~ occurs ":" "localhost" /\ Before "localhost" ":" = Ret "".
Proof.
  assert (Habs : ~ occurs ":" "localhost")
    by (apply strings_Index_absent; reflexivity).
  split; [exact Habs |].
  exact (proj1 (proj2 (Before_absent_or_empty "localhost" ":")) Habs).
Defined.

(** ** [Contains] and the binary search behind it *)

Lemma string_compare_lt_trans (a b c : string) :
  String.compare a b = Lt -> String.compare b c = Lt -> String.compare a c = Lt.
Proof.
  revert b c. induction a as [| x a IH]; intros [| y b] [| z c];
    cbn [String.compare]; try discriminate; try reflexivity.
  unfold Ascii.compare.
  destruct (N.compare_spec (N_of_ascii x) (N_of_ascii y)) as [Hxy | Hxy | Hxy];
    destruct (N.compare_spec (N_of_ascii y) (N_of_ascii z)) as [Hyz | Hyz | Hyz];
    try discriminate; intros H1 H2.
  - rewrite Hxy, Hyz, N.compare_refl. eauto.
  - rewrite Hxy. now apply N.compare_lt_iff in Hyz as ->.
  - rewrite <- Hyz. now apply N.compare_lt_iff in Hxy as ->.
  - assert (Hxz : (N_of_ascii x < N_of_ascii z)%N) by lia.
    now apply N.compare_lt_iff in Hxz as ->.
Qed.

Lemma string_ltb_leb (a b : string) : negb (String.ltb a b) = String.leb b a.
Proof.
  unfold String.ltb, String.leb. rewrite (String.compare_antisym b a).
  now destruct (String.compare a b).
Qed.

Lemma string_leb_ltb_trans (a b c : string) :
  String.leb a b = true -> String.ltb b c = true -> String.ltb a c = true.
Proof.
  unfold String.leb, String.ltb. intros Hab Hbc.
  destruct (String.compare b c) eqn:Hc; try discriminate.
  destruct (String.compare a b) eqn:Ha; try discriminate.
  - apply String.compare_eq_iff in Ha. subst. now rewrite Hc.
  - now rewrite (string_compare_lt_trans a b c).
Qed.

(** On a predicate that, once true, stays true up to [n], the loop of
    [sort.Search] started on [i, j] ends at the least index of [0, n]
    where the predicate holds ([n] if there is none), within [j - i]
    iterations. *)
Lemma search_loop_least (f : nat -> bool) (n : nat) :
  (forall h h', (h <= h')%nat -> (h' < n)%nat -> f h = true -> f h' = true) ->
  forall (fuel i j : nat),
    (j - i <= fuel)%nat -> (i <= j)%nat -> (j <= n)%nat ->
    (forall h, (h < i)%nat -> f h = false) ->
    (forall h, (j <= h)%nat -> (h < n)%nat -> f h = true) ->
    let r := search_loop fuel f i j in
    (i <= r)%nat /\ (r <= j)%nat /\
    (forall h, (h < r)%nat -> f h = false) /\
    (forall h, (r <= h)%nat -> (h < n)%nat -> f h = true).
Proof.
  intros Hmono fuel. induction fuel as [| fuel IH]; intros i j Hfuel Hij Hjn Hlo Hhi;
    cbn [search_loop].
  - destruct (Nat.ltb_spec i j); [lia |]. cbv zeta.
    assert (i = j) by lia. subst j. repeat split; auto.
  - destruct (Nat.ltb_spec i j) as [Hlt | Hge].
    + set (h := ((i + j) / 2)%nat).
      assert (Hh : (i <= h < j)%nat).
      { unfold h. split.
        - apply Nat.div_le_lower_bound; lia.
        - apply Nat.Div0.div_lt_upper_bound; lia. }
      destruct (f h) eqn:Hfh; cbn [negb].
      * destruct (IH i h) as (H1 & H2 & H3 & H4); try lia; try assumption.
        { intros k Hk Hkn. apply (Hmono h k); assumption. }
        cbv zeta. repeat split; try assumption; lia.
      * destruct (IH (h + 1)%nat j) as (H1 & H2 & H3 & H4); try lia; try assumption.
        { intros k Hk. destruct (f k) eqn:Hfk; [| reflexivity].
          assert (f h = true) by (apply (Hmono k h); [lia | lia | assumption]).
          congruence. }
        cbv zeta. repeat split; try assumption; lia.
    + cbv zeta. assert (i = j) by lia. subst j. repeat split; auto.
Qed.

(** [Contains] never reports a string that is not in the slice, sorted
    or not. *)
Theorem Contains_sound (s : list string) (searchTerm : string) :
  Contains s searchTerm = true -> In searchTerm s.
Proof.
  unfold Contains. cbv zeta. intros H.
  apply andb_prop in H as [Hlt Heq].
  apply Nat.ltb_lt in Hlt. apply String.eqb_eq in Heq.
  rewrite <- Heq. now apply nth_In.
Qed.

Lemma Contains_sound_witness :
  Contains ["alpha"; "beta"; "delta"] "beta" = true /\
  In "beta" ["alpha"; "beta"; "delta"].
Proof.
  split; [reflexivity |].
  exact (Contains_sound ["alpha"; "beta"; "delta"] "beta" eq_refl).
Defined.

(** On a slice in increasing order [Contains] is membership. *)
Theorem Contains_sorted_iff (s : list string) (searchTerm : string) :
  strings_sorted s ->
  (Contains s searchTerm = true <-> In searchTerm s).
Proof.
  intros Hsorted. split.
  - unfold Contains. cbv zeta. intros H.
    apply andb_prop in H as [Hlt Heq].
    apply Nat.ltb_lt in Hlt. apply String.eqb_eq in Heq.
    rewrite <- Heq. now apply nth_In.
  - intros Hin. apply (In_nth _ _ "") in Hin as (k & Hk & Hnth).
    set (f := fun i : nat => negb (String.ltb (nth i s "") searchTerm)).
    assert (Hmono : forall h h', (h <= h')%nat -> (h' < length s)%nat ->
                                 f h = true -> f h' = true).
    { intros h h' Hle Hlt Hf. unfold f in *.
      destruct (String.ltb (nth h' s "") searchTerm) eqn:Hl; [| reflexivity].
      rewrite (string_leb_ltb_trans _ _ _ (Hsorted h h' Hle Hlt) Hl) in Hf.
      discriminate Hf. }
    destruct (search_loop_least f (length s) Hmono (length s) 0%nat (length s))
      as (_ & Hr & Hbelow & Habove); try lia; try (intros; lia).
    fold (sort_Search (length s) f) in Hr, Hbelow, Habove.
    assert (Hfk : f k = true).
    { unfold f. rewrite Hnth, string_ltb_leb. unfold String.leb.
      now rewrite string_compare_refl. }
    assert (Hrk : (sort_Search (length s) f <= k)%nat).
    { destruct (Nat.le_gt_cases (sort_Search (length s) f) k) as [Hle | Hgt];
        [exact Hle |].
      rewrite (Hbelow k Hgt) in Hfk. discriminate Hfk. }
    unfold Contains, sort_SearchStrings. cbv zeta. fold f.
    apply andb_true_intro. split; [apply Nat.ltb_lt; lia |].
    apply String.eqb_eq. apply String.leb_antisym.
    + rewrite <- Hnth. apply Hsorted; [exact Hrk | exact Hk].
    + rewrite <- string_ltb_leb. apply (Habove _ (le_n _)). lia.
Qed.

Lemma Contains_sorted_iff_witness :
  strings_sorted ["alpha"; "beta"; "delta"] /\
  (Contains ["alpha"; "beta"; "delta"] "gamma" = true <->
   In "gamma" ["alpha"; "beta"; "delta"]).
Proof.
  assert (Hs : strings_sorted ["alpha"; "beta"; "delta"]).
  { intros i j Hij Hj. cbn [length] in Hj.
    destruct j as [| [| [| j]]]; [| | | lia];
      destruct i as [| [| [| i]]]; try lia; reflexivity. }
  split; [exact Hs |].
  exact (Contains_sorted_iff ["alpha"; "beta"; "delta"] "gamma" Hs).
Defined.

(** Without the order the search can miss an element that is there. *)
Example Contains_unsorted_miss :
  In "delta" ["delta"; "beta"; "alpha"] /\
  Contains ["delta"; "beta"; "alpha"] "delta" = false.
Proof. split; [now left | reflexivity]. Qed.

(** ** Generated names *)

Lemma append_assoc (s t u : string) : (s +:+ t) +:+ u = s +:+ (t +:+ u).
Proof.
  induction s as [| c s IH]; [reflexivity |].
  rewrite !append_cons. now f_equal.
Qed.

(** Two ways to cut one string: the shorter front part is a prefix of the
    longer one. *)
Lemma append_split (x y x' y' : string) :
  x +:+ y = x' +:+ y' -> len x <= len x' ->
  exists z, x' = x +:+ z /\ y = z +:+ y'.
Proof.
  revert x'. induction x as [| c x IH]; intros x' Heq Hlen.
  - exists x'. split; [reflexivity | exact Heq].
  - destruct x' as [| d x'].
    + rewrite len_cons in Hlen. change (len "") with 0 in Hlen.
      pose proof (len_nonneg x). lia.
    + rewrite !append_cons in Heq. injection Heq as -> Heq.
      rewrite !len_cons in Hlen.
      destruct (IH x' Heq) as (z & -> & Hy); [lia |].
      exists z. split; [now rewrite append_cons | exact Hy].
Qed.

Lemma append_cancel_r (s1 s2 t : string) : s1 +:+ t = s2 +:+ t -> s1 = s2.
Proof.
  intros Heq.
  assert (Hlen : len s1 = len s2).
  { apply (f_equal len) in Heq. rewrite !len_append in Heq. lia. }
  destruct (append_split s1 t s2 t Heq) as (z & -> & Hz); [lia |].
  rewrite len_append in Hlen.
  assert (z = "") by (apply len_zero_empty; pose proof (len_nonneg z); lia).
  subst z. clear. induction s1 as [| c s IH]; [reflexivity |].
  rewrite append_cons. now f_equal.
Qed.

(** Distinct cluster (or service) names never get the same generated
    name: each generator appends a fixed text to its argument. *)
Theorem Generate_names_injective (HeadNode c1 c2 : string) :
  c1 <> c2 ->
  GenerateServiceName HeadNode c1 <> GenerateServiceName HeadNode c2 /\
  GenerateDashboardServiceName c1 <> GenerateDashboardServiceName c2 /\
  GenerateDashboardAgentLabel c1 <> GenerateDashboardAgentLabel c2 /\
  GenerateIngressName HeadNode c1 <> GenerateIngressName HeadNode c2 /\
  (forall nodeType, GenerateIdentifier c1 nodeType <> GenerateIdentifier c2 nodeType) /\
  (forall random, GenerateRayClusterName random c1 <> GenerateRayClusterName random c2).
Proof.
  intros Hne.
  unfold GenerateServiceName, GenerateDashboardServiceName,
    GenerateDashboardAgentLabel, GenerateIngressName, GenerateIdentifier,
    GenerateRayClusterName.
  repeat split; intros; intros Heq; apply Hne; eapply append_cancel_r; exact Heq.
Qed.

Lemma Generate_names_injective_witness :
  "alpha" <> "beta" /\
  GenerateServiceName "head" "alpha" <> GenerateServiceName "head" "beta".
Proof.
  assert (Hne : "alpha" <> "beta") by discriminate.
  split; [exact Hne |].
  exact (proj1 (Generate_names_injective "head" "alpha" "beta" Hne)).
Defined.

(** [GenerateIdentifier] is not injective on pairs: the separator may
    also occur in its arguments. *)
Example GenerateIdentifier_collision :
  GenerateIdentifier "ray-a" "head" = GenerateIdentifier "ray" "a-head".
Proof. reflexivity. Qed.

(** [Before] recovers the service name from a generated cluster name,
    provided the suffix does not already occur in the service name
    followed by the suffix without its last dash. *)
Theorem Before_GenerateRayClusterName (random serviceName : string) :
  ~ occurs RayClusterSuffix (serviceName +:+ "-raycluster") ->
  Before (GenerateRayClusterName random serviceName) RayClusterSuffix = Ret serviceName.
Proof.
  intros Hfresh. unfold GenerateRayClusterName.
  destruct (Before_cases (serviceName +:+ RayClusterSuffix +:+ random) RayClusterSuffix)
    as [[Habs _] | (pre & rest & Hs & Hb & Hmin)].
  - exfalso. apply (strings_Index_absent _ _ Habs). now exists serviceName, random.
  - rewrite Hb. f_equal.
    assert (Hle : len pre <= len serviceName) by (apply (Hmin serviceName random); reflexivity).
    symmetry in Hs.
    destruct (append_split _ _ _ _ Hs Hle) as (z & Hsvc & Hz).
    destruct z as [| c z]; [rewrite Hsvc; clear; induction pre as [| d p IH];
                            [reflexivity | rewrite append_cons; now f_equal] |].
    exfalso. apply Hfresh.
    change (String c z +:+ RayClusterSuffix +:+ random)
      with (String c z +:+ "-raycluster" +:+ "-" +:+ random) in Hz.
    rewrite <- (append_assoc (String c z) "-raycluster" ("-" +:+ random)) in Hz.
    destruct (append_split RayClusterSuffix rest (String c z +:+ "-raycluster")
                ("-" +:+ random) Hz) as (w & Hw & _).
    { rewrite len_append, len_cons. change (len RayClusterSuffix) with 12.
      change (len "-raycluster") with 11. pose proof (len_nonneg z). lia. }
    exists pre, w. rewrite Hsvc, append_assoc. f_equal. exact Hw.
Qed.

Lemma Before_GenerateRayClusterName_witness :
  ~ occurs RayClusterSuffix ("rayservice-sample" +:+ "-raycluster") /\
  Before (GenerateRayClusterName "x7k2p" "rayservice-sample") RayClusterSuffix
  = Ret "rayservice-sample".
Proof.
  assert (Hfresh : ~ occurs RayClusterSuffix ("rayservice-sample" +:+ "-raycluster"))
    by (apply strings_Index_absent; reflexivity).
  split; [exact Hfresh |].
  exact (Before_GenerateRayClusterName "x7k2p" "rayservice-sample" Hfresh).
Defined.

(** The proviso is needed: a service name that ends like the suffix
    moves the first occurrence to the left. *)
Example Before_GenerateRayClusterName_overlap :
  Before (GenerateRayClusterName "x7k2p" "a-raycluster") RayClusterSuffix = Ret "a".
Proof. reflexivity. Qed.

(** ** The dashboard client: reads, and what the translator drops *)

(** [GetDeployments] reports an error exactly when building the request
    or the round trip fails, and then returns the empty string with that
    error.  After a round trip it returns what was read of the body with
    a [nil] error: neither the status code nor an error of the read is
    looked at. *)
Theorem GetDeployments_outcomes
    (http_NewRequest : string -> string -> option string -> http.Request + error)
    (client_Do : http.Client -> http.Request -> http.Response + error)
    (ioutil_ReadAll : http.Response -> string * option error)
    (r : RayDashboardClient) :
  let result := GetDeployments http_NewRequest client_Do ioutil_ReadAll r in
  let request := http_NewRequest "GET" (dashboardURL r +:+ DeployPath) None in
  (forall err, result.2 = Some err <->
     request = inr err \/
     exists req, request = inl req /\ client_Do (client r) req = inr err) /\
  (forall err, result.2 = Some err -> result.1 = "") /\
  (forall req resp, request = inl req -> client_Do (client r) req = inl resp ->
     result = ((ioutil_ReadAll resp).1, None)).
Proof.
  cbv zeta. unfold GetDeployments.
  destruct (http_NewRequest _ _ _) as [req | e1].
  - destruct (client_Do (client r) req) as [resp | e2] eqn:Hdo.
    + destruct (ioutil_ReadAll resp) as [body rerr] eqn:Hread. cbn [fst snd].
      repeat split.
      * discriminate.
      * intros [H | (q & [= <-] & H)]; congruence.
      * discriminate.
      * intros q p [= <-] Hp. rewrite Hdo in Hp. injection Hp as <-.
        now rewrite Hread.
    + cbn [fst snd]. repeat split.
      * intros [= <-]. right. eauto.
      * intros [H | (q & [= <-] & H)]; congruence.
      * intros q p [= <-] Hp. congruence.
  - cbn [fst snd]. repeat split.
    + intros [= <-]. now left.
    + intros [[= <-] | (q & H & _)]; [reflexivity | discriminate H].
    + intros q p H. discriminate H.
Qed.

Lemma GetDeployments_outcomes_witness :
  new_request "GET" (dashboardURL dashboard_sample +:+ DeployPath) None
  = inl {| http.Method := "GET";
           http.URL := dashboardURL dashboard_sample +:+ DeployPath;
           http.Header := ∅; http.Body := None |} /\
  GetDeployments new_request server_500 read_breaks_off dashboard_sample
  = ("Internal Server Error", None).
Proof.
  split; [reflexivity |].
  exact (proj2 (proj2 (GetDeployments_outcomes new_request server_500 read_breaks_off
                         dashboard_sample))
               _ _ eq_refl eq_refl).
Defined.

(** [GetDeploymentsStatus] returns either the decoded statuses with a
    [nil] error or no statuses with an error, and the error is that of
    building the request, of the round trip or of decoding the body.
    The decoder runs on whatever was read of the body: the status code
    and an error of the read are not looked at. *)
Theorem GetDeploymentsStatus_outcomes
    (AppStatus ServeDeploymentStatus : Type)
    (http_NewRequest : string -> string -> option string -> http.Request + error)
    (client_Do : http.Client -> http.Request -> http.Response + error)
    (ioutil_ReadAll : http.Response -> string * option error)
    (json_Unmarshal_statuses :
       string -> ServeDeploymentStatuses AppStatus ServeDeploymentStatus + error)
    (r : RayDashboardClient) :
  let result :=
    GetDeploymentsStatus AppStatus ServeDeploymentStatus http_NewRequest client_Do
      ioutil_ReadAll json_Unmarshal_statuses r in
  let request := http_NewRequest "GET" (dashboardURL r +:+ StatusPath) None in
  ((exists statuses, result = (Some statuses, None)) \/
   (exists err, result = (None, Some err))) /\
  (forall err, result.2 = Some err <->
     request = inr err \/
     (exists req, request = inl req /\ client_Do (client r) req = inr err) \/
     (exists req resp,
        request = inl req /\ client_Do (client r) req = inl resp /\
        json_Unmarshal_statuses (ioutil_ReadAll resp).1 = inr err)) /\
  (forall req resp statuses,
     request = inl req -> client_Do (client r) req = inl resp ->
     json_Unmarshal_statuses (ioutil_ReadAll resp).1 = inl statuses ->
     result = (Some statuses, None)).
Proof.
  cbv zeta. unfold GetDeploymentsStatus.
  destruct (http_NewRequest _ _ _) as [req | e1].
  - destruct (client_Do (client r) req) as [resp | e2] eqn:Hdo.
    + destruct (ioutil_ReadAll resp) as [body rerr] eqn:Hread.
      destruct (json_Unmarshal_statuses body) as [st | e3] eqn:Hdec; cbn [fst snd].
      * repeat split.
        -- left. eauto.
        -- discriminate.
        -- intros [H | [(q & [= <-] & H) | (q & p & [= <-] & Hp & H)]]; try congruence.
           rewrite Hdo in Hp. injection Hp as <-. rewrite Hread in H. cbn in H. congruence.
        -- intros q p s [= <-] Hp H. rewrite Hdo in Hp. injection Hp as <-.
           rewrite Hread in H. cbn in H. congruence.
      * repeat split.
        -- right. eauto.
        -- intros [= <-]. right. right. exists req, resp. rewrite Hread. auto.
        -- intros [H | [(q & [= <-] & H) | (q & p & [= <-] & Hp & H)]]; try congruence.
           rewrite Hdo in Hp. injection Hp as <-. rewrite Hread in H. cbn in H. congruence.
        -- intros q p s [= <-] Hp H. rewrite Hdo in Hp. injection Hp as <-.
           rewrite Hread in H. cbn in H. congruence.
    + cbn [fst snd]. repeat split.
      * right. eauto.
      * intros [= <-]. right. left. eauto.
      * intros [H | [(q & [= <-] & H) | (q & p & [= <-] & Hp & H)]]; congruence.
      * intros q p s [= <-] Hp. congruence.
  - cbn [fst snd]. repeat split.
    + right. eauto.
    + intros [= <-]. now left.
    + intros [[= <-] | [(q & H & _) | (q & p & H & _)]];
        [reflexivity | discriminate H | discriminate H].
    + intros q p s H. discriminate H.
Qed.

Lemma GetDeploymentsStatus_outcomes_witness :
  let request := new_request "GET" (dashboardURL dashboard_sample +:+ StatusPath) None in
  (exists req, request = inl req /\ network_down (client dashboard_sample) req
                                    = inr "context deadline exceeded") /\
  (GetDeploymentsStatus unit unit new_request network_down read_breaks_off
     unmarshal_statuses_sample dashboard_sample).2
  = Some "context deadline exceeded".
Proof.
  cbv zeta.
  assert (H : exists req,
             new_request "GET" (dashboardURL dashboard_sample +:+ StatusPath) None
             = inl req /\
             network_down (client dashboard_sample) req = inr "context deadline exceeded")
    by (eexists; split; reflexivity).
  split; [exact H |].
  exact (proj2 (proj1 (proj2 (GetDeploymentsStatus_outcomes unit unit new_request
                                network_down read_breaks_off unmarshal_statuses_sample
                                dashboard_sample))
                      "context deadline exceeded")
               (or_intror (or_introl H))).
Defined.

Lemma UpdateDeployments_error_sources_witness :
  (exists deploymentJson req,
     marshal_fixed (servingClusterDeployments_of yaml_rejects graph_sample)
       = inl deploymentJson /\
     new_request "PUT" (dashboardURL dashboard_sample +:+ DeployPath) (Some deploymentJson)
       = inl req /\
     network_down (client dashboard_sample)
       (http.Header_Set req "Content-Type" "application/json")
       = inr "context deadline exceeded") /\
  UpdateDeployments yaml_rejects marshal_fixed new_request network_down
    dashboard_sample graph_sample = Some "context deadline exceeded".
Proof.
  assert (H : exists deploymentJson req,
     marshal_fixed (servingClusterDeployments_of yaml_rejects graph_sample)
       = inl deploymentJson /\
     new_request "PUT" (dashboardURL dashboard_sample +:+ DeployPath) (Some deploymentJson)
       = inl req /\
     network_down (client dashboard_sample)
       (http.Header_Set req "Content-Type" "application/json")
       = inr "context deadline exceeded")
    by (do 2 eexists; repeat split).
  split; [exact H |].
  exact (proj2 (UpdateDeployments_error_sources yaml_rejects marshal_fixed new_request
                  network_down dashboard_sample graph_sample
                  "context deadline exceeded")
               (or_intror (or_intror H))).
Defined.

(** The translator drops the decoder's errors: two decoders that leave
    the same maps behind give the same wire objects and the same request
    body, whatever errors either of them reports. *)
Theorem ConvertServeConfig_decode_errors_dropped
    (yaml1 yaml2 : string -> gmap string Any -> gmap string Any * option error)
    (specs : rayv1alpha1.ServeDeploymentGraphSpec.t) :
  (forall text m, (yaml1 text m).1 = (yaml2 text m).1) ->
  ConvertServeConfig yaml1 (rayv1alpha1.ServeDeploymentGraphSpec.ServeConfigSpecs specs)
  = ConvertServeConfig yaml2 (rayv1alpha1.ServeDeploymentGraphSpec.ServeConfigSpecs specs) /\
  servingClusterDeployments_of yaml1 specs = servingClusterDeployments_of yaml2 specs.
Proof.
  intros Hsame.
  assert (Hconv : forall l, ConvertServeConfig yaml1 l = ConvertServeConfig yaml2 l).
  { intros l. rewrite !ConvertServeConfig_map.
    apply list_fmap_ext. intros _ config _.
    unfold convert_config, decode_blob. cbv zeta. now rewrite !Hsame. }
  split; [apply Hconv |].
  unfold servingClusterDeployments_of, decode_blob. cbv zeta.
  now rewrite Hconv, Hsame.
Qed.

Lemma ConvertServeConfig_decode_errors_dropped_witness :
  (forall text m, (yaml_rejects text m).1 = (yaml_ignores text m).1) /\
  servingClusterDeployments_of yaml_rejects graph_sample
  = servingClusterDeployments_of yaml_ignores graph_sample.
Proof.
  assert (H : forall text m, (yaml_rejects text m).1 = (yaml_ignores text m).1)
    by reflexivity.
  split; [exact H |].
  exact (proj2 (ConvertServeConfig_decode_errors_dropped
                  yaml_rejects yaml_ignores graph_sample H)).
Defined.

Lemma ConvertServeConfig_scalar_fields_witness :
  [serve_config_sample; serve_config_other] !! 0%nat = Some serve_config_sample /\
  exists wire : ServeConfigSpec.t,
    ConvertServeConfig yaml_rejects [serve_config_sample; serve_config_other] !! 0%nat
      = Some wire /\
    ServeConfigSpec.NumReplicas wire = Some 1 /\
    ServeConfigSpec.HealthCheckTimeoutS wire = Some 20.
Proof.
  split; [reflexivity |].
  destruct (ConvertServeConfig_scalar_fields yaml_rejects
              [serve_config_sample; serve_config_other] 0%nat serve_config_sample eq_refl)
    as (wire & Hw & _ & Hn & _ & _ & _ & _ & _ & Hh & _).
  exists wire. repeat split; assumption.
Defined.

(** ** The JSON comparator is symmetric *)

(** When the comparison of decoded trees is symmetric, so is
    [CompareJsonStruct]: the order in which it encodes and decodes its
    two arguments does not show in the result. *)
Theorem CompareJsonStruct_symmetric
    (GoValue : Type)
    (json_Marshal : GoValue -> string + error)
    (json_Unmarshal : string -> Any + error)
    (reflect_DeepEqual : Any -> Any -> bool)
    (objA objB : GoValue) :
  (forall v1 v2, reflect_DeepEqual v1 v2 = reflect_DeepEqual v2 v1) ->
  CompareJsonStruct GoValue json_Marshal json_Unmarshal reflect_DeepEqual objA objB
  = CompareJsonStruct GoValue json_Marshal json_Unmarshal reflect_DeepEqual objB objA.
Proof.
  intros Hsym. unfold CompareJsonStruct.
  destruct (json_Marshal objA) as [a |], (json_Marshal objB) as [b |]; try reflexivity.
  destruct (json_Unmarshal a) as [v1 |], (json_Unmarshal b) as [v2 |]; try reflexivity.
  apply Hsym.
Qed.

Lemma CompareJsonStruct_symmetric_witness :
  (forall v1 v2, deep_equal_scalar v1 v2 = deep_equal_scalar v2 v1) /\
  CompareJsonStruct Any marshal_scalar unmarshal_scalar deep_equal_scalar
    (ABool true) (AString "false")
  = CompareJsonStruct Any marshal_scalar unmarshal_scalar deep_equal_scalar
      (AString "false") (ABool true).
Proof.
  assert (H : forall v1 v2, deep_equal_scalar v1 v2 = deep_equal_scalar v2 v1).
  { intros [| [|] | | | | |] [| [|] | | | | |]; reflexivity. }
  split; [exact H |].
  exact (CompareJsonStruct_symmetric Any marshal_scalar unmarshal_scalar
           deep_equal_scalar (ABool true) (AString "false") H).
Defined.

Lemma containers_differ_false_iff_witness :
  (corev1.Image ray_head = corev1.Image ray_head /\
   resources_agree (corev1.Requests (corev1.Resources ray_head))
                   (corev1.Requests (corev1.Resources ray_head)) /\
   resources_agree (corev1.Limits (corev1.Resources ray_head))
                   (corev1.Limits (corev1.Resources ray_head))) /\
  containers_differ ray_head ray_head = false.
Proof.
  assert (H : corev1.Image ray_head = corev1.Image ray_head /\
              resources_agree (corev1.Requests (corev1.Resources ray_head))
                              (corev1.Requests (corev1.Resources ray_head)) /\
              resources_agree (corev1.Limits (corev1.Resources ray_head))
                              (corev1.Limits (corev1.Resources ray_head))).
  { split; [reflexivity |]. split; apply resources_agree_refl. }
  split; [exact H |].
  exact (proj2 (containers_differ_false_iff ray_head ray_head) H).
Defined.

Lemma FilterContainerByName_error_iff_absent_witness :
  (forall c, c ∈ [ray_head; sidecar] -> corev1.Name c <> "istio-proxy") /\
  FilterContainerByName [ray_head; sidecar] "istio-proxy"
  = (corev1.zero_Container, Some "can not find container istio-proxy").
Proof.
  assert (H : forall c, c ∈ [ray_head; sidecar] -> corev1.Name c <> "istio-proxy").
  { intros c Hc. apply elem_of_cons in Hc as [-> | Hc]; [discriminate |].
    apply list_elem_of_singleton in Hc as ->. discriminate. }
  split; [exact H |].
  exact (proj1 (proj1 (FilterContainerByName_error_iff_absent
                         [ray_head; sidecar] "istio-proxy")) H).
Defined.

(** [GetNamespace] never returns the empty string. *)
Lemma GetNamespace_nonempty (metaData : metav1.ObjectMeta) :
  GetNamespace metaData <> "" /\
  (metav1.Namespace metaData <> "" -> GetNamespace metaData = metav1.Namespace metaData).
Proof.
  unfold GetNamespace.
  destruct (String.eqb_spec (metav1.Namespace metaData) ""); split;
    try discriminate; try assumption; try reflexivity; contradiction.
Qed.
